(** * CipherShare backend: the secret lifecycle of [backend/server.py]

    The FastAPI handlers [create_secret], [get_secret_info], [view_secret],
    [delete_secret] and [cleanup_expired_secrets] are embedded as small
    coroutines over the MongoDB collection [db.secrets].  Every [await] of
    the source is one constructor of [coro]; running a coroutine to its end
    gives the sequential behaviour of a request, and resuming several
    coroutines one [await] at a time gives the interleavings of the asyncio
    event loop.

    Conventions.
    - A [datetime] is its number of microseconds since the epoch, in [Z].
      The source stores [expires_at] and [created_at] as ISO-8601 text
      ([isoformat]) and reads [expires_at] back with [fromisoformat]; the
      two are inverse on aware UTC datetimes, so the record keeps the
      datetime itself.
    - [secrets.token_hex(32)] and [datetime.now(timezone.utc)] are inputs of
      the handlers: the token drawn at line 84 and the clock readings of
      lines 85, 94, 117, 143 and 188 are parameters.
    - The collection has no unique index on ["id"] (the source declares
      none; MongoDB only keys the automatic [_id]), so it is a list of
      documents in insertion order, duplicates of an ["id"] allowed.
    - The [slowapi] rate limit decorators and request validation run before
      a handler is entered and are not part of the handlers. *)

From Stdlib Require Import ZArith List String Bool Lia.
From Stdlib Require Import Ascii NArith.
From Stdlib.Strings Require Byte.
Import ListNotations.

Local Open Scope string_scope.
Local Open Scope list_scope.
Local Open Scope Z_scope.

(** ** Data model *)

(** [timedelta(minutes=m)] in microseconds. *)
Definition timedelta_minutes (m : Z) : Z := m * 60000000.

Module SecretCreate.
Record t : Type := mk {
  encrypted_data : string;
  iv : string;
  pin_hash : option string;
  expiry_minutes : Z;
  one_time_view : bool
}.
(** [expiry_minutes: int = Field(ge=1, le=1440)], checked by pydantic before
    the handler runs. *)
Definition valid (s : t) : Prop := 1 <= expiry_minutes s <= 1440.
End SecretCreate.

Module SecretResponse.
Record t : Type := mk { id : string; message : string }.
End SecretResponse.

Module SecretFetch.
Record t : Type := mk {
  encrypted_data : string;
  iv : string;
  one_time_view : bool;
  expires_at : Z;
  has_pin : bool
}.
End SecretFetch.

(** The dict returned by [get_secret_info]. *)
Module SecretInfo.
Record t : Type := mk {
  has_pin : bool;
  one_time_view : bool;
  expires_at : Z
}.
End SecretInfo.

Module PinVerify.
Record t : Type := mk { pin_hash : string }.
End PinVerify.

Module HTTPException.
Record t : Type := mk { status_code : Z; detail : string }.
End HTTPException.

(** The document [create_secret] builds (lines 87-97). *)
Module Doc.
Record t : Type := mk {
  id : string;
  encrypted_data : string;
  iv : string;
  pin_hash : option string;
  expiry_minutes : Z;
  one_time_view : bool;
  created_at : Z;
  expires_at : Z;
  viewed : bool
}.
(** [{"$set": {"viewed": True}}] *)
Definition set_viewed (d : t) : t :=
  mk (id d) (encrypted_data d) (iv d) (pin_hash d) (expiry_minutes d)
     (one_time_view d) (created_at d) (expires_at d) true.
End Doc.

(** Python truthiness of a [str] and of an [Optional[str]]. *)
Definition truthy (s : string) : bool := negb (String.eqb s "").

Definition truthy_opt (o : option string) : bool :=
  match o with
  | None => false
  | Some s => truthy s
  end.

(** [x is not None] *)
Definition is_not_None {A : Type} (o : option A) : bool :=
  match o with
  | None => false
  | Some _ => true
  end.

(** ** The collection [db.secrets] *)

Module Collection.

Definition t : Type := list Doc.t.

(** The filter [{"id": secret_id}]. *)
Definition has_id (secret_id : string) (d : Doc.t) : bool :=
  String.eqb (Doc.id d) secret_id.

Definition find_one (secret_id : string) (c : t) : option Doc.t :=
  find (has_id secret_id) c.

Definition insert_one (d : Doc.t) (c : t) : t := c ++ [d].

(** Removes the first match; the second component is [deleted_count]. *)
Fixpoint delete_one (secret_id : string) (c : t) : t * Z :=
  match c with
  | [] => ([], 0)
  | d :: c' =>
      if has_id secret_id d then (c', 1)
      else let (r, n) := delete_one secret_id c' in (d :: r, n)
  end.

(** Applies the update to the first match. *)
Fixpoint update_one (secret_id : string) (set : Doc.t -> Doc.t) (c : t) : t :=
  match c with
  | [] => []
  | d :: c' =>
      if has_id secret_id d then set d :: c'
      else d :: update_one secret_id set c'
  end.

(** The filter [{"expires_at": {"$lt": current_time}}].  The source compares
    the ISO texts; on UTC [isoformat] output that is the order of the
    datetimes. *)
Definition expires_lt (current_time : Z) (d : Doc.t) : bool :=
  Doc.expires_at d <? current_time.

Definition delete_many (p : Doc.t -> bool) (c : t) : t * Z :=
  (filter (fun d => negb (p d)) c, Z.of_nat (List.length (filter p c))).

(** Number of documents carrying an id. *)
Definition count_documents (secret_id : string) (c : t) : nat :=
  List.length (filter (has_id secret_id) c).

End Collection.

(** ** Coroutines: a handler is a tree of awaited store calls *)

Inductive coro (A : Type) : Type :=
| Return (a : A)
| Raise (e : HTTPException.t)
| Await_find_one (secret_id : string) (k : option Doc.t -> coro A)
| Await_insert_one (d : Doc.t) (k : unit -> coro A)
| Await_delete_one (secret_id : string) (k : Z -> coro A)
| Await_update_one (secret_id : string) (set : Doc.t -> Doc.t) (k : unit -> coro A)
| Await_delete_many (p : Doc.t -> bool) (k : Z -> coro A).

Arguments Return {A} a.
Arguments Raise {A} e.
Arguments Await_find_one {A} secret_id k.
Arguments Await_insert_one {A} d k.
Arguments Await_delete_one {A} secret_id k.
Arguments Await_update_one {A} secret_id set k.
Arguments Await_delete_many {A} p k.

Fixpoint bind {A B : Type} (p : coro A) (f : A -> coro B) : coro B :=
  match p with
  | Return a => f a
  | Raise e => Raise e
  | Await_find_one i k => Await_find_one i (fun r => bind (k r) f)
  | Await_insert_one d k => Await_insert_one d (fun r => bind (k r) f)
  | Await_delete_one i k => Await_delete_one i (fun r => bind (k r) f)
  | Await_update_one i s k => Await_update_one i s (fun r => bind (k r) f)
  | Await_delete_many q k => Await_delete_many q (fun r => bind (k r) f)
  end.

Declare Scope coro_scope.
Delimit Scope coro_scope with coro.
Notation "x <- c1 ;; c2" := (bind c1 (fun x => c2))
  (at level 61, c1 at next level, right associativity) : coro_scope.
Notation "c1 ;; c2" := (bind c1 (fun _ => c2))
  (at level 61, right associativity) : coro_scope.
Local Open Scope coro_scope.

Module db.
Module secrets.
Definition find_one (secret_id : string) : coro (option Doc.t) :=
  Await_find_one secret_id Return.
Definition insert_one (d : Doc.t) : coro unit :=
  Await_insert_one d Return.
Definition delete_one (secret_id : string) : coro Z :=
  Await_delete_one secret_id Return.
Definition update_one (secret_id : string) (set : Doc.t -> Doc.t) : coro unit :=
  Await_update_one secret_id set Return.
Definition delete_many (p : Doc.t -> bool) : coro Z :=
  Await_delete_many p Return.
End secrets.
End db.

(** ** The handlers *)

Definition create_secret (token : string) (now1 now2 : Z)
    (secret : SecretCreate.t) : coro SecretResponse.t :=
  let expires_at := now1 + timedelta_minutes (SecretCreate.expiry_minutes secret) in
  let doc := {|
    Doc.id := token;
    Doc.encrypted_data := SecretCreate.encrypted_data secret;
    Doc.iv := SecretCreate.iv secret;
    Doc.pin_hash := SecretCreate.pin_hash secret;
    Doc.expiry_minutes := SecretCreate.expiry_minutes secret;
    Doc.one_time_view := SecretCreate.one_time_view secret;
    Doc.created_at := now2;
    Doc.expires_at := expires_at;
    Doc.viewed := false
  |} in
  db.secrets.insert_one doc ;;
  Return {| SecretResponse.id := token;
            SecretResponse.message := "Secret created successfully" |}.

Definition get_secret_info (secret_id : string) (now : Z) : coro SecretInfo.t :=
  secret <- db.secrets.find_one secret_id ;;
  match secret with
  | None => Raise (HTTPException.mk 404 "Secret not found or has expired")
  | Some secret =>
      let expires_at := Doc.expires_at secret in
      (if now >? expires_at then
         db.secrets.delete_one secret_id ;;
         Raise (HTTPException.mk 410 "Secret has expired")
       else Return tt) ;;
      (if Doc.one_time_view secret && Doc.viewed secret then
         db.secrets.delete_one secret_id ;;
         Raise (HTTPException.mk 410 "Secret has already been viewed")
       else Return tt) ;;
      Return {| SecretInfo.has_pin := is_not_None (Doc.pin_hash secret);
                SecretInfo.one_time_view := Doc.one_time_view secret;
                SecretInfo.expires_at := Doc.expires_at secret |}
  end.

Definition view_secret (secret_id : string) (pin_data : option PinVerify.t)
    (now : Z) : coro SecretFetch.t :=
  secret <- db.secrets.find_one secret_id ;;
  match secret with
  | None => Raise (HTTPException.mk 404 "Secret not found or has expired")
  | Some secret =>
      let expires_at := Doc.expires_at secret in
      (if now >? expires_at then
         db.secrets.delete_one secret_id ;;
         Raise (HTTPException.mk 410 "Secret has expired")
       else Return tt) ;;
      (if Doc.one_time_view secret && Doc.viewed secret then
         db.secrets.delete_one secret_id ;;
         Raise (HTTPException.mk 410 "Secret has already been viewed")
       else Return tt) ;;
      (if truthy_opt (Doc.pin_hash secret) then
         (if match pin_data with
             | None => true
             | Some p => negb (truthy (PinVerify.pin_hash p))
             end
          then Raise (HTTPException.mk 401 "PIN required")
          else Return tt) ;;
         (* line 156 runs only with a body and a stored digest: line 155
            has raised without a body, line 153 was false without a digest *)
         (if match pin_data, Doc.pin_hash secret with
             | Some p, Some h => negb (String.eqb (PinVerify.pin_hash p) h)
             | _, _ => true
             end
          then Raise (HTTPException.mk 401 "Invalid PIN")
          else Return tt)
       else Return tt) ;;
      (if Doc.one_time_view secret then
         db.secrets.update_one secret_id Doc.set_viewed
       else Return tt) ;;
      Return {| SecretFetch.encrypted_data := Doc.encrypted_data secret;
                SecretFetch.iv := Doc.iv secret;
                SecretFetch.one_time_view := Doc.one_time_view secret;
                SecretFetch.expires_at := Doc.expires_at secret;
                SecretFetch.has_pin := is_not_None (Doc.pin_hash secret) |}
  end.

Definition delete_secret (secret_id : string) : coro string :=
  deleted_count <- db.secrets.delete_one secret_id ;;
  (if deleted_count =? 0 then
     Raise (HTTPException.mk 404 "Secret not found")
   else Return tt) ;;
  Return "Secret deleted successfully".

Definition cleanup_expired_secrets (current_time : Z) : coro Z :=
  deleted_count <- db.secrets.delete_many (Collection.expires_lt current_time) ;;
  Return deleted_count.

(** ** Running a request to completion *)

Inductive result (A : Type) : Type :=
| Ok (a : A)
| Err (e : HTTPException.t).

Arguments Ok {A} a.
Arguments Err {A} e.

Fixpoint run {A : Type} (p : coro A) (c : Collection.t) : Collection.t * result A :=
  match p with
  | Return a => (c, Ok a)
  | Raise e => (c, Err e)
  | Await_find_one i k => run (k (Collection.find_one i c)) c
  | Await_insert_one d k => run (k tt) (Collection.insert_one d c)
  | Await_delete_one i k =>
      let (c', n) := Collection.delete_one i c in run (k n) c'
  | Await_update_one i s k => run (k tt) (Collection.update_one i s c)
  | Await_delete_many q k =>
      let (c', n) := Collection.delete_many q c in run (k n) c'
  end.

(** ** The event loop: one awaited store call at a time *)

Definition step {A : Type} (p : coro A) (c : Collection.t) : Collection.t * coro A :=
  match p with
  | Return _ | Raise _ => (c, p)
  | Await_find_one i k => (c, k (Collection.find_one i c))
  | Await_insert_one d k => (Collection.insert_one d c, k tt)
  | Await_delete_one i k =>
      let (c', n) := Collection.delete_one i c in (c', k n)
  | Await_update_one i s k => (Collection.update_one i s c, k tt)
  | Await_delete_many q k =>
      let (c', n) := Collection.delete_many q c in (c', k n)
  end.

(** Resume task [i] for one step; the other tasks stay suspended. *)
Fixpoint resume {A : Type} (i : nat) (tasks : list (coro A)) (c : Collection.t)
    : Collection.t * list (coro A) :=
  match tasks, i with
  | [], _ => (c, [])
  | t :: ts, O => let (c', t') := step t c in (c', t' :: ts)
  | t :: ts, S j => let (c', ts') := resume j ts c in (c', t :: ts')
  end.

Fixpoint event_loop {A : Type} (schedule : list nat) (tasks : list (coro A))
    (c : Collection.t) : Collection.t * list (coro A) :=
  match schedule with
  | [] => (c, tasks)
  | i :: schedule' =>
      let (c', tasks') := resume i tasks c in event_loop schedule' tasks' c'
  end.

(** One round of the loop: every task is resumed once, in order. *)
Fixpoint sweep {A : Type} (tasks : list (coro A)) (c : Collection.t)
    : Collection.t * list (coro A) :=
  match tasks with
  | [] => (c, [])
  | t :: ts =>
      let (c1, t') := step t c in
      let (c2, ts') := sweep ts c1 in
      (c2, t' :: ts')
  end.

(** The schedule in which each of [n] tasks is resumed once before any of
    them is resumed a second time. *)
Definition two_rounds (n : nat) : list nat := seq 0 n ++ seq 0 n.

(** What a finished task handed to its caller. *)
Definition outcome {A : Type} (p : coro A) : option (result A) :=
  match p with
  | Return a => Some (Ok a)
  | Raise e => Some (Err e)
  | _ => None
  end.

(** ** Sequential histories of requests *)

Inductive request : Type :=
| Create (token : string) (now1 now2 : Z) (secret : SecretCreate.t)
| Inspect (secret_id : string) (now : Z)
| View (secret_id : string) (pin_data : option PinVerify.t) (now : Z)
| Delete (secret_id : string)
| Cleanup (current_time : Z).

Inductive response : Type :=
| Created (r : SecretResponse.t)
| Info (r : SecretInfo.t)
| Fetched (r : SecretFetch.t)
| Deleted (message : string)
| Cleaned (deleted_count : Z)
| Denied (e : HTTPException.t).

Definition reply {A : Type} (wrap : A -> response) (r : result A) : response :=
  match r with
  | Ok a => wrap a
  | Err e => Denied e
  end.

Definition handler (r : request) : Collection.t -> Collection.t * response :=
  fun c =>
  match r with
  | Create token now1 now2 secret =>
      let (c', x) := run (create_secret token now1 now2 secret) c in
      (c', reply Created x)
  | Inspect secret_id now =>
      let (c', x) := run (get_secret_info secret_id now) c in
      (c', reply Info x)
  | View secret_id pin_data now =>
      let (c', x) := run (view_secret secret_id pin_data now) c in
      (c', reply Fetched x)
  | Delete secret_id =>
      let (c', x) := run (delete_secret secret_id) c in
      (c', reply Deleted x)
  | Cleanup current_time =>
      let (c', x) := run (cleanup_expired_secrets current_time) c in
      (c', reply Cleaned x)
  end.

(** Requests served one after the other, each to completion. *)
Fixpoint serve (rs : list request) (c : Collection.t)
    : Collection.t * list response :=
  match rs with
  | [] => (c, [])
  | r :: rs' =>
      let (c1, x) := handler r c in
      let (c2, xs) := serve rs' c1 in
      (c2, x :: xs)
  end.

(** The request is a [Create] that drew [token]. *)
Definition creates (token : string) (r : request) : Prop :=
  match r with
  | Create t _ _ _ => t = token
  | _ => False
  end.

(** The request is an [Inspect] or a [View] of [token]. *)
Definition reads (token : string) (r : request) : Prop :=
  match r with
  | Inspect t _ | View t _ _ => t = token
  | _ => False
  end.

(** The five denials of the read handlers. *)
Definition not_found : HTTPException.t :=
  HTTPException.mk 404 "Secret not found or has expired".
Definition has_expired : HTTPException.t :=
  HTTPException.mk 410 "Secret has expired".
Definition already_viewed : HTTPException.t :=
  HTTPException.mk 410 "Secret has already been viewed".
Definition pin_required : HTTPException.t :=
  HTTPException.mk 401 "PIN required".
Definition invalid_pin : HTTPException.t :=
  HTTPException.mk 401 "Invalid PIN".

(** The reply says the secret is gone: absent, expired or already viewed. *)
Definition gone (x : response) : Prop :=
  x = Denied not_found \/ x = Denied has_expired \/ x = Denied already_viewed.

(** The two early exits shared by both read handlers (lines 116-124 and
    142-150), as predicates on the fetched document. *)
Definition expired (now : Z) (d : Doc.t) : bool := now >? Doc.expires_at d.

Definition consumed (d : Doc.t) : bool := Doc.one_time_view d && Doc.viewed d.

(** What the PIN gate of lines 153-157 decides for a document. *)
Definition pin_gate (d : Doc.t) (pin_data : option PinVerify.t)
    : option HTTPException.t :=
  if truthy_opt (Doc.pin_hash d) then
    match pin_data with
    | None => Some pin_required
    | Some p =>
        if negb (truthy (PinVerify.pin_hash p)) then Some pin_required
        else match Doc.pin_hash d with
             | Some h =>
                 if String.eqb (PinVerify.pin_hash p) h then None
                 else Some invalid_pin
             | None => Some invalid_pin
             end
    end
  else None.

Definition fetch_of (d : Doc.t) : SecretFetch.t :=
  {| SecretFetch.encrypted_data := Doc.encrypted_data d;
     SecretFetch.iv := Doc.iv d;
     SecretFetch.one_time_view := Doc.one_time_view d;
     SecretFetch.expires_at := Doc.expires_at d;
     SecretFetch.has_pin := is_not_None (Doc.pin_hash d) |}.

Definition info_of (d : Doc.t) : SecretInfo.t :=
  {| SecretInfo.has_pin := is_not_None (Doc.pin_hash d);
     SecretInfo.one_time_view := Doc.one_time_view d;
     SecretInfo.expires_at := Doc.expires_at d |}.

(** The document [create_secret] inserts. *)
Definition doc_of (token : string) (now1 now2 : Z) (secret : SecretCreate.t)
    : Doc.t :=
  {| Doc.id := token;
     Doc.encrypted_data := SecretCreate.encrypted_data secret;
     Doc.iv := SecretCreate.iv secret;
     Doc.pin_hash := SecretCreate.pin_hash secret;
     Doc.expiry_minutes := SecretCreate.expiry_minutes secret;
     Doc.one_time_view := SecretCreate.one_time_view secret;
     Doc.created_at := now2;
     Doc.expires_at := now1 + timedelta_minutes (SecretCreate.expiry_minutes secret);
     Doc.viewed := false |}.

(** A property of every document stored under [token]. *)
Definition all_under (token : string) (P : Doc.t -> Prop) (c : Collection.t) : Prop :=
  forall d, In d c -> Collection.has_id token d = true -> P d.

(** ** Sample inputs

    A token as [secrets.token_hex(32)] prints it, two SHA-256 digests as the
    client sends them, a clock reading, and the two secrets of the test
    suite: the one-time secret without PIN and the PIN-protected one. *)

Definition token_a : string :=
  "a70bf50e531ce1a817561f2f5d5b6645d4e806becf58ccc5e8cf6b8045a090a8".

Definition digest_1234 : string :=
  "03ac674216f3e15c761ee1a5e255f067953623c8b388b4459e13f978d7c846f4".

Definition digest_wrong : string :=
  "8810ad581e59f2bc3928b261707a71308f7e139eb04820366dc4d5c18d980225".

Definition t0 : Z := 1700000000000000.

Definition one_time_secret : SecretCreate.t :=
  SecretCreate.mk "AB==" "12" None 60 true.

Definition pin_secret : SecretCreate.t :=
  SecretCreate.mk "AB==" "12" (Some digest_1234) 60 false.

Definition one_time_store : Collection.t :=
  [doc_of token_a t0 t0 one_time_secret].

Definition pin_store : Collection.t :=
  [doc_of token_a t0 t0 pin_secret].

Definition two_viewers : list (coro SecretFetch.t) :=
  [view_secret token_a None (t0 + 1); view_secret token_a None (t0 + 2)].

Definition fifty_viewers : list (coro SecretFetch.t) :=
  repeat (view_secret token_a None (t0 + 1)) 50.

(** ** Vocabulary for whole-collection properties *)

(** The documents the [Create] requests of a history insert, in order. *)
Fixpoint created (rs : list request) : list Doc.t :=
  match rs with
  | [] => []
  | Create token now1 now2 secret :: rs' =>
      doc_of token now1 now2 secret :: created rs'
  | _ :: rs' => created rs'
  end.

(** [d'] is [d], possibly with its [viewed] flag raised. *)
Definition stems_from (d d' : Doc.t) : Prop :=
  d' = d \/ d' = Doc.set_viewed d.

(** Only one-time records are ever flagged as viewed. *)
Definition flag_sound (d : Doc.t) : Prop :=
  Doc.viewed d = true -> Doc.one_time_view d = true.

(** The id a request addresses; [Cleanup] addresses none. *)
Definition addresses (r : request) : option string :=
  match r with
  | Create token _ _ _ => Some token
  | Inspect secret_id _ => Some secret_id
  | View secret_id _ _ => Some secret_id
  | Delete secret_id => Some secret_id
  | Cleanup _ => None
  end.

(** The request is an [Inspect] or a [View] made at clock reading [now]. *)
Definition reads_at (token : string) (now : Z) (r : request) : Prop :=
  match r with
  | Inspect t n | View t _ n => t = token /\ n = now
  | _ => False
  end.

(** The reply carries a record: the answer of a successful read. *)
Definition granted (x : response) : Prop :=
  match x with
  | Info _ | Fetched _ => True
  | _ => False
  end.

Definition secret_not_found : HTTPException.t :=
  HTTPException.mk 404 "Secret not found".

(** What a request for an id that names no record is answered. *)
Definition answers_absent (token : string) (r : request) (x : response) : Prop :=
  (reads token r -> x = Denied not_found) /\
  (r = Delete token -> x = Denied secret_not_found).

(** More sample inputs: a second token, a secret that may be viewed any
    number of times, and a secret created with an empty digest. *)
Definition token_b : string :=
  "5f4dcc3b5aa765d61d8327deb882cf995f4dcc3b5aa765d61d8327deb882cf99".

Definition plain_secret : SecretCreate.t :=
  SecretCreate.mk "Q0Q=" "34" None 5 false.

Definition empty_digest_secret : SecretCreate.t :=
  SecretCreate.mk "Q0Q=" "34" (Some "") 5 false.

Definition plain_store : Collection.t :=
  [doc_of token_b t0 t0 plain_secret].

Definition mixed_store : Collection.t :=
  [doc_of token_a t0 t0 one_time_secret; doc_of token_b t0 t0 plain_secret].

(** Every id names at most one record. *)
Definition keyed (c : Collection.t) : Prop :=
  forall token, (Collection.count_documents token c <= 1)%nat.

(** Every [Create] of the history draws a token that no record carries at
    the moment it is served. *)
Fixpoint draws_fresh (rs : list request) (c : Collection.t) : Prop :=
  match rs with
  | [] => True
  | r :: rs' =>
      match r with
      | Create token _ _ _ => Collection.count_documents token c = 0%nat
      | _ => True
      end /\ draws_fresh rs' (fst (handler r c))
  end.

(** ** Token generation (lines 69-71)

    [secrets.token_hex(n)] is [binascii.hexlify] of [n] bytes drawn from the
    system's random source, two lowercase hex digits per byte, high nibble
    first.  The random source is an input: [token_bytes n] is the byte
    string it hands out when asked for [n] bytes. *)

Definition hexdigits : string := "0123456789abcdef".

Definition hex_digit (n : N) : ascii :=
  match String.get (N.to_nat n) hexdigits with
  | Some a => a
  | None => "0"%char
  end.

Definition hex_of_byte (b : Byte.byte) : string :=
  String (hex_digit (N.shiftr (Byte.to_N b) 4))
    (String (hex_digit (N.land (Byte.to_N b) 15)) EmptyString).

Fixpoint hexlify (bs : list Byte.byte) : string :=
  match bs with
  | [] => EmptyString
  | b :: bs' => String.append (hex_of_byte b) (hexlify bs')
  end.

Definition token_hex (token_bytes : nat -> list Byte.byte) (nbytes : nat) : string :=
  hexlify (token_bytes nbytes).

Definition generate_secure_token (token_bytes : nat -> list Byte.byte) : string :=
  token_hex token_bytes 32.

(** The inverse reading, used to state that no entropy is lost. *)
Definition unhex_digit (a : ascii) : option N :=
  match String.index 0 (String a EmptyString) hexdigits with
  | Some i => Some (N.of_nat i)
  | None => None
  end.

Fixpoint unhexlify (s : string) : option (list Byte.byte) :=
  match s with
  | EmptyString => Some []
  | String a1 (String a2 s') =>
      match unhex_digit a1, unhex_digit a2, unhexlify s' with
      | Some h, Some l, Some bs =>
          match Byte.of_N (16 * h + l) with
          | Some b => Some (b :: bs)
          | None => None
          end
      | _, _, _ => None
      end
  | String _ EmptyString => None
  end.

(** A random source for the examples: it repeats one byte. *)
Definition constant_source (b : Byte.byte) (n : nat) : list Byte.byte := repeat b n.

(** ** Equations of the handlers run to completion *)

Lemma run_create_secret token now1 now2 secret c :
  run (create_secret token now1 now2 secret) c =
  (c ++ [doc_of token now1 now2 secret],
   Ok (SecretResponse.mk token "Secret created successfully")).
Proof. reflexivity. Qed.

Lemma run_get_secret_info secret_id now c :
  run (get_secret_info secret_id now) c =
  match Collection.find_one secret_id c with
  | None => (c, Err not_found)
  | Some d =>
      if expired now d then
        (fst (Collection.delete_one secret_id c), Err has_expired)
      else if consumed d then
        (fst (Collection.delete_one secret_id c), Err already_viewed)
      else (c, Ok (info_of d))
  end.
Proof.
  unfold get_secret_info, expired, consumed; simpl.
  destruct (Collection.find_one secret_id c) as [d|]; [|reflexivity].
  destruct (now >? Doc.expires_at d); simpl.
  - destruct (Collection.delete_one secret_id c); reflexivity.
  - destruct (Doc.one_time_view d && Doc.viewed d); simpl; [|reflexivity].
    destruct (Collection.delete_one secret_id c); reflexivity.
Qed.

Lemma run_view_secret secret_id pin_data now c :
  run (view_secret secret_id pin_data now) c =
  match Collection.find_one secret_id c with
  | None => (c, Err not_found)
  | Some d =>
      if expired now d then
        (fst (Collection.delete_one secret_id c), Err has_expired)
      else if consumed d then
        (fst (Collection.delete_one secret_id c), Err already_viewed)
      else match pin_gate d pin_data with
           | Some e => (c, Err e)
           | None =>
               (if Doc.one_time_view d
                then Collection.update_one secret_id Doc.set_viewed c
                else c,
                Ok (fetch_of d))
           end
  end.
Proof.
  unfold view_secret, expired, consumed, pin_gate, fetch_of; simpl.
  destruct (Collection.find_one secret_id c) as [d|]; [|reflexivity].
  destruct (now >? Doc.expires_at d); simpl.
  { destruct (Collection.delete_one secret_id c); reflexivity. }
  destruct (Doc.one_time_view d && Doc.viewed d); simpl.
  { destruct (Collection.delete_one secret_id c); reflexivity. }
  destruct (truthy_opt (Doc.pin_hash d)) eqn:Hp; simpl.
  - destruct pin_data as [p|]; simpl; [|reflexivity].
    destruct (negb (truthy (PinVerify.pin_hash p))); simpl; [reflexivity|].
    destruct (Doc.pin_hash d) as [h|]; simpl; [|reflexivity].
    destruct (String.eqb (PinVerify.pin_hash p) h); simpl; [|reflexivity].
    destruct (Doc.one_time_view d); reflexivity.
  - destruct (Doc.one_time_view d); reflexivity.
Qed.

Lemma run_delete_secret secret_id c :
  run (delete_secret secret_id) c =
  (fst (Collection.delete_one secret_id c),
   if snd (Collection.delete_one secret_id c) =? 0
   then Err (HTTPException.mk 404 "Secret not found")
   else Ok "Secret deleted successfully").
Proof.
  unfold delete_secret; simpl.
  destruct (Collection.delete_one secret_id c) as [c' n]; simpl.
  destruct (n =? 0); reflexivity.
Qed.

Lemma run_cleanup_expired_secrets current_time c :
  run (cleanup_expired_secrets current_time) c =
  (fst (Collection.delete_many (Collection.expires_lt current_time) c),
   Ok (snd (Collection.delete_many (Collection.expires_lt current_time) c))).
Proof. reflexivity. Qed.

(** The example history of the spec, on an empty collection: Create a
    one-time secret, Inspect it, View it, then View it twice more.  The
    second View purges the flagged record (410), the third finds nothing
    (404). *)
Example one_time_history :
  snd (serve [Create token_a t0 t0 one_time_secret;
              Inspect token_a (t0 + 1);
              View token_a None (t0 + 2);
              View token_a None (t0 + 3);
              View token_a None (t0 + 4)] [])
  = [Created (SecretResponse.mk token_a "Secret created successfully");
     Info (SecretInfo.mk false true (t0 + 3600000000));
     Fetched (SecretFetch.mk "AB==" "12" true (t0 + 3600000000) false);
     Denied already_viewed;
     Denied not_found].
Proof. reflexivity. Qed.

(** ** Facts about the collection *)

Section CollectionFacts.

Variable token : string.

Lemma find_one_In c d :
  Collection.find_one token c = Some d ->
  In d c /\ Collection.has_id token d = true.
Proof. unfold Collection.find_one; apply find_some. Qed.

Lemma find_one_None c d :
  Collection.find_one token c = None -> In d c ->
  Collection.has_id token d = false.
Proof. unfold Collection.find_one; intros H Hin; exact (find_none _ _ H d Hin). Qed.

Lemma count_documents_0 c d :
  Collection.count_documents token c = 0%nat -> In d c ->
  Collection.has_id token d = false.
Proof.
  unfold Collection.count_documents; intros H Hin.
  destruct (Collection.has_id token d) eqn:E; [|reflexivity].
  assert (Hf : In d (filter (Collection.has_id token) c))
    by (apply filter_In; split; assumption).
  destruct (filter (Collection.has_id token) c); [destruct Hf | discriminate].
Qed.

Lemma count_documents_0_find_one c :
  Collection.count_documents token c = 0%nat ->
  Collection.find_one token c = None.
Proof.
  intros H; destruct (Collection.find_one token c) as [d|] eqn:E; [|reflexivity].
  apply find_one_In in E as [Hin Hid].
  rewrite (count_documents_0 c d H Hin) in Hid; discriminate.
Qed.

Lemma count_documents_app c1 c2 :
  Collection.count_documents token (c1 ++ c2) =
  (Collection.count_documents token c1 + Collection.count_documents token c2)%nat.
Proof.
  unfold Collection.count_documents.
  rewrite filter_app, length_app; reflexivity.
Qed.

Lemma find_one_app c1 c2 :
  Collection.find_one token (c1 ++ c2) =
  match Collection.find_one token c1 with
  | Some d => Some d
  | None => Collection.find_one token c2
  end.
Proof.
  unfold Collection.find_one.
  induction c1 as [|d c1 IH]; simpl; [reflexivity|].
  destruct (Collection.has_id token d); [reflexivity | exact IH].
Qed.

Lemma delete_one_In secret_id c d :
  In d (fst (Collection.delete_one secret_id c)) -> In d c.
Proof.
  induction c as [|x c IH]; simpl; [tauto|].
  destruct (Collection.has_id secret_id x).
  - simpl; tauto.
  - destruct (Collection.delete_one secret_id c) as [r n]; simpl in *.
    intros [->|H]; [left; reflexivity | right; exact (IH H)].
Qed.

Lemma delete_many_In p c d :
  In d (fst (Collection.delete_many p c)) -> In d c.
Proof. unfold Collection.delete_many; simpl; intros H; apply filter_In in H; tauto. Qed.

Lemma update_one_In secret_id set c d :
  In d (Collection.update_one secret_id set c) ->
  In d c \/ exists d0, In d0 c /\ Collection.has_id secret_id d0 = true /\ d = set d0.
Proof.
  induction c as [|x c IH]; simpl; [tauto|].
  destruct (Collection.has_id secret_id x) eqn:E; simpl.
  - intros [<-|H]; [right; exists x; auto | left; right; exact H].
  - intros [<-|H]; [left; left; reflexivity|].
    destruct (IH H) as [H1|(d0 & H1 & H2 & H3)]; [left; right; exact H1|].
    right; exists d0; auto.
Qed.

Lemma has_id_set_viewed d :
  Collection.has_id token (Doc.set_viewed d) = Collection.has_id token d.
Proof. reflexivity. Qed.

(** When the id is a key, [update_one] leaves no unflagged copy behind. *)
Lemma update_one_unique c d :
  (Collection.count_documents token c <= 1)%nat ->
  In d (Collection.update_one token Doc.set_viewed c) ->
  Collection.has_id token d = true ->
  exists d0, Collection.find_one token c = Some d0 /\ d = Doc.set_viewed d0.
Proof.
  unfold Collection.find_one.
  induction c as [|x c IH]; simpl; [tauto|].
  unfold Collection.count_documents in *; simpl.
  destruct (Collection.has_id token x) eqn:E; simpl.
  - intros Hc [<-|H] Hid; [exists x; auto|].
    assert (H0 : Collection.count_documents token c = 0%nat)
      by (unfold Collection.count_documents; lia).
    rewrite (count_documents_0 c d H0 H) in Hid; discriminate.
  - intros Hc [<-|H] Hid; [congruence | exact (IH Hc H Hid)].
Qed.

(** Requests that do not create [token] again keep such a property, as long
    as flagging a document as viewed keeps it. *)
Lemma handler_all_under (P : Doc.t -> Prop) r c :
  (forall d, P d -> P (Doc.set_viewed d)) ->
  ~ creates token r ->
  all_under token P c ->
  all_under token P (fst (handler r c)).
Proof.
  intros HP Hr Hc d.
  destruct r as [t n1 n2 s|i n|i p n|i|n]; unfold handler.
  - rewrite run_create_secret; simpl.
    intros Hin Hid; apply in_app_or in Hin as [Hin|[<-|[]]]; [exact (Hc d Hin Hid)|].
    unfold Collection.has_id in Hid; simpl in Hid.
    apply String.eqb_eq in Hid; elim Hr; exact Hid.
  - rewrite run_get_secret_info.
    destruct (Collection.find_one i c) as [d0|]; simpl; [|apply Hc].
    destruct (expired n d0); simpl;
      [intros Hin; apply Hc; exact (delete_one_In _ _ _ Hin)|].
    destruct (consumed d0); simpl;
      [intros Hin; apply Hc; exact (delete_one_In _ _ _ Hin) | apply Hc].
  - rewrite run_view_secret.
    destruct (Collection.find_one i c) as [d0|]; simpl; [|apply Hc].
    destruct (expired n d0); simpl;
      [intros Hin; apply Hc; exact (delete_one_In _ _ _ Hin)|].
    destruct (consumed d0); simpl;
      [intros Hin; apply Hc; exact (delete_one_In _ _ _ Hin)|].
    destruct (pin_gate d0 p); simpl; [apply Hc|].
    destruct (Doc.one_time_view d0); simpl; [|apply Hc].
    intros Hin Hid.
    apply update_one_In in Hin as [Hin|(d1 & Hin & _ & ->)]; [exact (Hc d Hin Hid)|].
    apply HP, (Hc d1 Hin); exact Hid.
  - rewrite run_delete_secret.
    destruct (snd (Collection.delete_one i c) =? 0); simpl;
      intros Hin; apply Hc; exact (delete_one_In _ _ _ Hin).
  - rewrite run_cleanup_expired_secrets; simpl.
    intros Hin; apply Hc; apply filter_In in Hin; tauto.
Qed.

End CollectionFacts.

(** ** The PIN gate *)

Lemma pin_gate_denials d pin_data e :
  pin_gate d pin_data = Some e -> e = pin_required \/ e = invalid_pin.
Proof.
  unfold pin_gate.
  destruct (truthy_opt (Doc.pin_hash d)); [|discriminate].
  destruct pin_data as [p|]; [|intros [= <-]; auto].
  destruct (negb (truthy (PinVerify.pin_hash p))); [intros [= <-]; auto|].
  destruct (Doc.pin_hash d) as [h|]; [|intros [= <-]; auto].
  destruct (String.eqb (PinVerify.pin_hash p) h); [discriminate | intros [= <-]; auto].
Qed.

Lemma pin_gate_no_pin d pin_data :
  Doc.pin_hash d = None -> pin_gate d pin_data = None.
Proof. unfold pin_gate; intros ->; reflexivity. Qed.

Lemma expired_spec now d : expired now d = true <-> now > Doc.expires_at d.
Proof. unfold expired; rewrite Z.gtb_ltb, Z.ltb_lt; lia. Qed.

Lemma expired_false now d : expired now d = false <-> now <= Doc.expires_at d.
Proof. unfold expired; rewrite Z.gtb_ltb, Z.ltb_ge; lia. Qed.

(** ** Expiry *)

(** C5.  For a stored record, both read handlers answer "Secret has expired"
    exactly when the clock reading is strictly after [expires_at]; every
    reading up to and including [expires_at] gives the same answer as the
    reading [expires_at] itself, and at that reading an unconsumed record is
    inspected successfully and viewed successfully once the PIN gate lets
    the caller through. *)
Theorem expiry_is_strict :
  forall (c : Collection.t) (secret_id : string) (d : Doc.t),
    Collection.find_one secret_id c = Some d ->
    (forall now,
        snd (run (get_secret_info secret_id now) c) = Err has_expired
        <-> now > Doc.expires_at d) /\
    (forall now pin_data,
        snd (run (view_secret secret_id pin_data now) c) = Err has_expired
        <-> now > Doc.expires_at d) /\
    (forall now, now <= Doc.expires_at d ->
        run (get_secret_info secret_id now) c
        = run (get_secret_info secret_id (Doc.expires_at d)) c) /\
    (forall now pin_data, now <= Doc.expires_at d ->
        run (view_secret secret_id pin_data now) c
        = run (view_secret secret_id pin_data (Doc.expires_at d)) c) /\
    (consumed d = false ->
        run (get_secret_info secret_id (Doc.expires_at d)) c
        = (c, Ok (info_of d))) /\
    (consumed d = false -> forall pin_data, pin_gate d pin_data = None ->
        snd (run (view_secret secret_id pin_data (Doc.expires_at d)) c)
        = Ok (fetch_of d)).
Proof.
  intros c secret_id d Hf.
  assert (Hedge : expired (Doc.expires_at d) d = false)
    by (apply expired_false; lia).
  repeat split.
  - rewrite run_get_secret_info, Hf.
    destruct (expired now d) eqn:E; [intros _; apply expired_spec, E|].
    destruct (consumed d); simpl; discriminate.
  - intros H; rewrite run_get_secret_info, Hf.
    apply expired_spec in H; rewrite H; reflexivity.
  - rewrite run_view_secret, Hf.
    destruct (expired now d) eqn:E; [intros _; apply expired_spec, E|].
    destruct (consumed d); simpl; [discriminate|].
    destruct (pin_gate d pin_data) as [e|] eqn:G; simpl; [|discriminate].
    destruct (pin_gate_denials _ _ _ G) as [-> | ->]; discriminate.
  - intros H; rewrite run_view_secret, Hf.
    apply expired_spec in H; rewrite H; reflexivity.
  - intros now H; rewrite !run_get_secret_info, Hf, Hedge.
    apply expired_false in H; rewrite H; reflexivity.
  - intros now pin_data H; rewrite !run_view_secret, Hf, Hedge.
    apply expired_false in H; rewrite H; reflexivity.
  - intros Hc; rewrite run_get_secret_info, Hf, Hedge, Hc; reflexivity.
  - intros Hc pin_data G; rewrite run_view_secret, Hf, Hedge, Hc, G; reflexivity.
Qed.

Lemma expiry_is_strict_witness :
  Collection.find_one token_a pin_store
    = Some (doc_of token_a t0 t0 pin_secret) /\
  run (get_secret_info token_a (t0 + 3600000000)) pin_store
    = (pin_store, Ok (info_of (doc_of token_a t0 t0 pin_secret))) /\
  snd (run (get_secret_info token_a (t0 + 3600000001)) pin_store)
    = Err has_expired.
Proof.
  assert (Hf : Collection.find_one token_a pin_store
               = Some (doc_of token_a t0 t0 pin_secret)) by reflexivity.
  destruct (expiry_is_strict pin_store token_a _ Hf) as (H1 & _ & _ & _ & H5 & _).
  split; [exact Hf|]; split.
  - apply H5; reflexivity.
  - apply H1; vm_compute; reflexivity.
Defined.

(** ** PIN denials *)

(** C6.  On a live PIN-protected record a View without a PIN digest (no body,
    or an empty digest) is answered 401 "PIN required" and a View with a
    digest different from the stored one is answered 401 "Invalid PIN"; in
    both cases the collection after the call is the collection before it, so
    the record is neither flagged as viewed nor deleted, and the answer is
    the fixed exception, which carries no field of the record. *)
Theorem pin_denial_leaves_store_untouched :
  forall (c : Collection.t) (secret_id : string) (d : Doc.t) (h : string)
         (pin_data : option PinVerify.t) (now : Z),
    Collection.find_one secret_id c = Some d ->
    expired now d = false ->
    consumed d = false ->
    Doc.pin_hash d = Some h ->
    truthy h = true ->
    ((pin_data = None \/ pin_data = Some (PinVerify.mk "")) ->
       run (view_secret secret_id pin_data now) c = (c, Err pin_required)) /\
    (forall p, pin_data = Some (PinVerify.mk p) -> truthy p = true -> p <> h ->
       run (view_secret secret_id pin_data now) c = (c, Err invalid_pin)) /\
    (forall c' e, run (view_secret secret_id pin_data now) c = (c', Err e) ->
       c' = c /\ Collection.find_one secret_id c' = Some d /\
       (e = pin_required \/ e = invalid_pin)).
Proof.
  intros c secret_id d h pin_data now Hf He Hc Hh Ht.
  rewrite run_view_secret, Hf, He, Hc.
  unfold pin_gate; rewrite Hh; simpl; rewrite Ht.
  split; [|split].
  - intros [-> | ->]; reflexivity.
  - intros p -> Hp Hne; simpl; rewrite Hp; simpl.
    apply String.eqb_neq in Hne; rewrite Hne; reflexivity.
  - intros c' e.
    assert (Hstay : forall x : HTTPException.t,
               (x = pin_required \/ x = invalid_pin) ->
               (c, @Err SecretFetch.t x) = (c', Err e) ->
               c' = c /\ Collection.find_one secret_id c' = Some d /\
               (e = pin_required \/ e = invalid_pin)).
    { intros x Hx [= <- <-]; auto. }
    destruct pin_data as [[p]|]; simpl; [|apply Hstay; auto].
    destruct (truthy p); simpl; [|apply Hstay; auto].
    destruct (String.eqb p h); [discriminate | apply Hstay; auto].
Qed.

Lemma pin_denial_leaves_store_untouched_witness :
  run (view_secret token_a None (t0 + 1)) pin_store
    = (pin_store, Err pin_required) /\
  run (view_secret token_a (Some (PinVerify.mk digest_wrong)) (t0 + 1)) pin_store
    = (pin_store, Err invalid_pin).
Proof.
  split.
  - apply (pin_denial_leaves_store_untouched pin_store token_a
             (doc_of token_a t0 t0 pin_secret) digest_1234 None (t0 + 1));
      try reflexivity.
    left; reflexivity.
  - apply (pin_denial_leaves_store_untouched pin_store token_a
             (doc_of token_a t0 t0 pin_secret) digest_1234
             (Some (PinVerify.mk digest_wrong)) (t0 + 1)) with (p := digest_wrong);
      try reflexivity.
    vm_compute; discriminate.
Defined.

(** ** Records without a PIN *)

(** C10.  For a stored record whose [pin_hash] is absent, View with any
    request body gives the same collection and the same answer as View with
    no body, and on a record that is neither expired nor consumed that
    answer is the record's payload. *)
Theorem view_ignores_digest_without_pin :
  forall (c : Collection.t) (secret_id : string) (d : Doc.t),
    Collection.find_one secret_id c = Some d ->
    Doc.pin_hash d = None ->
    (forall pin_data now,
        run (view_secret secret_id pin_data now) c
        = run (view_secret secret_id None now) c) /\
    (forall pin_data now, expired now d = false -> consumed d = false ->
        snd (run (view_secret secret_id pin_data now) c) = Ok (fetch_of d)).
Proof.
  intros c secret_id d Hf Hp; split.
  - intros pin_data now; rewrite !run_view_secret, Hf.
    rewrite !(pin_gate_no_pin d _ Hp); reflexivity.
  - intros pin_data now He Hc; rewrite run_view_secret, Hf, He, Hc.
    rewrite (pin_gate_no_pin d _ Hp); reflexivity.
Qed.

Lemma view_ignores_digest_without_pin_witness :
  run (view_secret token_a (Some (PinVerify.mk digest_wrong)) (t0 + 1)) one_time_store
    = run (view_secret token_a None (t0 + 1)) one_time_store /\
  snd (run (view_secret token_a (Some (PinVerify.mk digest_wrong)) (t0 + 1)) one_time_store)
    = Ok (fetch_of (doc_of token_a t0 t0 one_time_secret)).
Proof.
  destruct (view_ignores_digest_without_pin one_time_store token_a
              (doc_of token_a t0 t0 one_time_secret) eq_refl eq_refl) as [H1 H2].
  split; [apply H1 | apply H2; reflexivity].
Defined.

(** ** Inspect is a read *)

Lemma get_secret_info_store secret_id now c :
  fst (run (get_secret_info secret_id now) c) =
  match Collection.find_one secret_id c with
  | Some d =>
      if expired now d || consumed d
      then fst (Collection.delete_one secret_id c)
      else c
  | None => c
  end.
Proof.
  rewrite run_get_secret_info.
  destruct (Collection.find_one secret_id c) as [d|]; [|reflexivity].
  destruct (expired now d); [reflexivity|].
  destruct (consumed d); reflexivity.
Qed.

Lemma serve_inspects_live secret_id d nows c :
  Collection.find_one secret_id c = Some d ->
  consumed d = false ->
  Forall (fun t => t <= Doc.expires_at d) nows ->
  serve (map (Inspect secret_id) nows) c
  = (c, map (fun _ => Info (info_of d)) nows).
Proof.
  intros Hf Hc Hn; induction Hn as [|t nows Ht _ IH]; [reflexivity|].
  cbn [map serve]; unfold handler.
  rewrite run_get_secret_info, Hf, Hc.
  apply expired_false in Ht; rewrite Ht; cbn [reply].
  rewrite IH; reflexivity.
Qed.

(** C7.  Inspect changes the collection only by deleting the fetched record
    when that record is expired or is a viewed one-time record; every
    document left in the collection was there before, with the same fields,
    so no [viewed] flag is ever set.  On a record that is not consumed, any
    number of Inspect calls made no later than [expires_at] all succeed and
    leave the collection as it was, so a View made afterwards behaves as if
    they had not happened and returns the payload when it passes the expiry
    check and the PIN gate. *)
Theorem inspect_never_consumes :
  forall (c : Collection.t) (secret_id : string),
    (forall now,
        fst (run (get_secret_info secret_id now) c) =
        match Collection.find_one secret_id c with
        | Some d =>
            if expired now d || consumed d
            then fst (Collection.delete_one secret_id c)
            else c
        | None => c
        end) /\
    (forall now d', In d' (fst (run (get_secret_info secret_id now) c)) ->
                    In d' c) /\
    (forall d nows,
        Collection.find_one secret_id c = Some d ->
        consumed d = false ->
        Forall (fun t => t <= Doc.expires_at d) nows ->
        let c' := fst (serve (map (Inspect secret_id) nows) c) in
        c' = c /\
        snd (serve (map (Inspect secret_id) nows) c)
          = map (fun _ => Info (info_of d)) nows /\
        forall pin_data now,
          run (view_secret secret_id pin_data now) c'
            = run (view_secret secret_id pin_data now) c /\
          (now <= Doc.expires_at d -> pin_gate d pin_data = None ->
           snd (run (view_secret secret_id pin_data now) c')
             = Ok (fetch_of d))).
Proof.
  intros c secret_id; split; [|split].
  - intros now; apply get_secret_info_store.
  - intros now d'; rewrite get_secret_info_store.
    destruct (Collection.find_one secret_id c) as [d|]; [|tauto].
    destruct (expired now d || consumed d); [apply delete_one_In | tauto].
  - intros d nows Hf Hc Hn; cbv zeta.
    rewrite (serve_inspects_live _ _ _ _ Hf Hc Hn); cbn [fst snd].
    split; [reflexivity|]; split; [reflexivity|].
    intros pin_data now; split; [reflexivity|].
    intros Hnow Hg; apply expired_false in Hnow.
    rewrite run_view_secret, Hf, Hnow, Hc, Hg; reflexivity.
Qed.

Lemma inspect_never_consumes_witness :
  fst (serve (map (Inspect token_a) [t0; t0 + 1; t0 + 2]) one_time_store)
    = one_time_store /\
  snd (run (view_secret token_a None (t0 + 3))
         (fst (serve (map (Inspect token_a) [t0; t0 + 1; t0 + 2]) one_time_store)))
    = Ok (fetch_of (doc_of token_a t0 t0 one_time_secret)).
Proof.
  destruct (inspect_never_consumes one_time_store token_a) as (_ & _ & H).
  assert (Hn : Forall (fun t => t <= Doc.expires_at (doc_of token_a t0 t0 one_time_secret))
                 [t0; t0 + 1; t0 + 2])
    by (repeat constructor; vm_compute; discriminate).
  destruct (H (doc_of token_a t0 t0 one_time_secret) [t0; t0 + 1; t0 + 2]
              eq_refl eq_refl Hn) as (H1 & _ & H3).
  split; [exact H1|].
  apply (H3 None (t0 + 3)); [vm_compute; discriminate | reflexivity].
Defined.

(** ** Histories that keep a property of the records under a token *)

Lemma serve_all_under (token : string) (P : Doc.t -> Prop)
    (Q : request -> response -> Prop) :
  (forall d, P d -> P (Doc.set_viewed d)) ->
  (forall r c, all_under token P c -> Q r (snd (handler r c))) ->
  forall rs c,
    all_under token P c ->
    Forall (fun r => ~ creates token r) rs ->
    Forall2 Q rs (snd (serve rs c)).
Proof.
  intros HP HQ rs; induction rs as [|r rs IH]; intros c Hc Hrs; [constructor|].
  inversion Hrs as [|? ? Hr Hrs']; subst.
  cbn [serve].
  pose proof (HQ r c Hc) as Hq.
  pose proof (handler_all_under token P r c HP Hr Hc) as Hc1.
  destruct (handler r c) as [c1 x]; cbn [fst snd] in *.
  specialize (IH c1 Hc1 Hrs').
  destruct (serve rs c1) as [c2 xs]; cbn [snd] in *.
  constructor; assumption.
Qed.

Lemma consumed_set_viewed d :
  consumed d = true -> consumed (Doc.set_viewed d) = true.
Proof.
  unfold consumed; simpl; intros H.
  apply andb_true_iff in H as [-> _]; reflexivity.
Qed.

Lemma reads_of_consumed_are_gone token r c :
  all_under token (fun d => consumed d = true) c ->
  reads token r -> gone (snd (handler r c)).
Proof.
  intros Hc Hr; unfold gone.
  destruct r as [t n1 n2 s|i n|i p n|i|n]; simpl in Hr; try contradiction;
    subst i; unfold handler.
  - rewrite run_get_secret_info.
    destruct (Collection.find_one token c) as [d|] eqn:Hf; [|auto].
    apply find_one_In in Hf as [Hin Hid]; rewrite (Hc d Hin Hid).
    destruct (expired n d); auto.
  - rewrite run_view_secret.
    destruct (Collection.find_one token c) as [d|] eqn:Hf; [|auto].
    apply find_one_In in Hf as [Hin Hid]; rewrite (Hc d Hin Hid).
    destruct (expired n d); auto.
Qed.

(** C2.  Take a collection in which [token] names at most one record, and a
    View of [token] that succeeds on a one-time record.  In every later
    sequence of requests served one after the other, none of which is a
    Create drawing [token] again, each Inspect and each View of [token] is
    answered 404 "Secret not found or has expired", 410 "Secret has expired"
    or 410 "Secret has already been viewed", never with the record. *)
Theorem one_time_view_stays_consumed :
  forall (c c' : Collection.t) (token : string)
         (pin_data : option PinVerify.t) (now : Z) (f : SecretFetch.t)
         (rs : list request),
    (Collection.count_documents token c <= 1)%nat ->
    run (view_secret token pin_data now) c = (c', Ok f) ->
    SecretFetch.one_time_view f = true ->
    Forall (fun r => ~ creates token r) rs ->
    Forall2 (fun r x => reads token r -> gone x) rs (snd (serve rs c')).
Proof.
  intros c c' token pin_data now f rs Hu Hrun Hot Hrs.
  apply (serve_all_under token (fun d => consumed d = true));
    [exact consumed_set_viewed | | | exact Hrs].
  { intros r c0 Hc0 Hr; exact (reads_of_consumed_are_gone token r c0 Hc0 Hr). }
  rewrite run_view_secret in Hrun.
  destruct (Collection.find_one token c) as [d|] eqn:Hf; [|discriminate].
  destruct (expired now d); [discriminate|].
  destruct (consumed d); [discriminate|].
  destruct (pin_gate d pin_data); [discriminate|].
  injection Hrun as Hc' Hfd; subst f; simpl in Hot; rewrite Hot in Hc'; subst c'.
  intros d' Hin Hid.
  destruct (update_one_unique token c d' Hu Hin Hid) as (d0 & Hf0 & ->).
  rewrite Hf in Hf0; injection Hf0 as <-.
  unfold consumed; simpl; rewrite Hot; reflexivity.
Qed.

Lemma one_time_view_stays_consumed_witness :
  Forall2 (fun r x => reads token_a r -> gone x)
    [View token_a None (t0 + 2); Inspect token_a (t0 + 3); View token_a None (t0 + 4)]
    (snd (serve
            [View token_a None (t0 + 2); Inspect token_a (t0 + 3);
             View token_a None (t0 + 4)]
            (Collection.update_one token_a Doc.set_viewed one_time_store))).
Proof.
  apply (one_time_view_stays_consumed one_time_store _ token_a None (t0 + 1)
           (fetch_of (doc_of token_a t0 t0 one_time_secret))).
  - vm_compute; lia.
  - reflexivity.
  - reflexivity.
  - repeat constructor; simpl; tauto.
Defined.

(** ** Round trip of the payload *)

Lemma fetched_under token (x y : string) r c :
  all_under token (fun d => Doc.encrypted_data d = x /\ Doc.iv d = y) c ->
  forall f, reads token r -> snd (handler r c) = Fetched f ->
            SecretFetch.encrypted_data f = x /\ SecretFetch.iv f = y.
Proof.
  intros Hc f Hr.
  destruct r as [t n1 n2 s|i n|i p n|i|n]; simpl in Hr; try contradiction;
    subst i; unfold handler.
  - destruct (run (get_secret_info token n) c) as [c1 [a|e]]; discriminate.
  - rewrite run_view_secret.
    destruct (Collection.find_one token c) as [d|] eqn:Hf; [|discriminate].
    apply find_one_In in Hf as [Hin Hid].
    destruct (expired n d); [discriminate|].
    destruct (consumed d); [discriminate|].
    destruct (pin_gate d p); [discriminate|].
    cbn [snd reply]; intros [= <-]; exact (Hc d Hin Hid).
Qed.

(** C9.  Create stores [encrypted_data] and [iv] as received.  When the
    drawn token is not yet in the collection, a View made no later than
    [expires_at] that passes the PIN gate returns exactly those two strings,
    and so does every successful View of the token in any later sequence of
    requests that does not draw the token again. *)
Theorem view_returns_what_create_stored :
  forall (c : Collection.t) (token : string) (now1 now2 : Z)
         (secret : SecretCreate.t) (rs : list request),
    Collection.count_documents token c = 0%nat ->
    Forall (fun r => ~ creates token r) rs ->
    let c1 := fst (run (create_secret token now1 now2 secret) c) in
    (forall pin_data now,
        now <= now1 + timedelta_minutes (SecretCreate.expiry_minutes secret) ->
        pin_gate (doc_of token now1 now2 secret) pin_data = None ->
        exists f,
          snd (run (view_secret token pin_data now) c1) = Ok f /\
          SecretFetch.encrypted_data f = SecretCreate.encrypted_data secret /\
          SecretFetch.iv f = SecretCreate.iv secret) /\
    Forall2 (fun r x => forall f, reads token r -> x = Fetched f ->
               SecretFetch.encrypted_data f = SecretCreate.encrypted_data secret /\
               SecretFetch.iv f = SecretCreate.iv secret)
            rs (snd (serve rs c1)).
Proof.
  intros c token now1 now2 secret rs Hfresh Hrs; cbv zeta.
  rewrite run_create_secret; cbn [fst].
  split.
  - intros pin_data now Hnow Hg.
    exists (fetch_of (doc_of token now1 now2 secret)).
    rewrite run_view_secret, find_one_app.
    rewrite (count_documents_0_find_one token c Hfresh).
    unfold Collection.find_one, Collection.has_id; cbn [find doc_of Doc.id].
    rewrite String.eqb_refl.
    assert (He : expired now (doc_of token now1 now2 secret) = false)
      by (apply expired_false; exact Hnow).
    rewrite He, Hg; unfold consumed; cbn [doc_of Doc.viewed Doc.one_time_view].
    rewrite andb_false_r; cbn [snd]; auto.
  - apply (serve_all_under token
             (fun d => Doc.encrypted_data d = SecretCreate.encrypted_data secret /\
                       Doc.iv d = SecretCreate.iv secret));
      [intros d H; exact H | | | exact Hrs].
    + intros r c0 Hc0 f Hr Hx; exact (fetched_under token _ _ r c0 Hc0 f Hr Hx).
    + intros d Hin Hid; apply in_app_or in Hin as [Hin|[<-|[]]]; [|split; reflexivity].
      rewrite (count_documents_0 token c d Hfresh Hin) in Hid; discriminate.
Qed.

Lemma view_returns_what_create_stored_witness :
  exists f,
    snd (run (view_secret token_a (Some (PinVerify.mk digest_1234)) (t0 + 5))
           (fst (run (create_secret token_a t0 (t0 + 1) pin_secret) []))) = Ok f /\
    SecretFetch.encrypted_data f = "AB==" /\ SecretFetch.iv f = "12".
Proof.
  destruct (view_returns_what_create_stored [] token_a t0 (t0 + 1) pin_secret
              [Inspect token_a (t0 + 2)]) as [H _].
  - reflexivity.
  - repeat constructor; simpl; tauto.
  - apply (H (Some (PinVerify.mk digest_1234)) (t0 + 5)).
    + vm_compute; discriminate.
    + reflexivity.
Defined.

(** ** Creation *)

(** C4, as the spec states it, fails: [created_at] is a second reading of the
    clock (line 94), taken after the reading [expires_at] is computed from
    (line 85).  With readings one microsecond apart and a ttl of 60 minutes
    the stored record has [expires_at <> created_at + ttl]. *)
Lemma created_at_is_a_second_clock_reading :
  SecretCreate.valid one_time_secret /\
  exists d,
    Collection.find_one token_a
      (fst (run (create_secret token_a t0 (t0 + 1) one_time_secret) [])) = Some d /\
    Doc.expires_at d
      <> Doc.created_at d + timedelta_minutes (SecretCreate.expiry_minutes one_time_secret).
Proof.
  split; [vm_compute; split; discriminate|].
  eexists; split; [reflexivity|].
  vm_compute; discriminate.
Qed.

(** C4, amended.  For a valid ttl and a token not yet in the collection, the
    stored record has [expires_at] equal to the first clock reading plus the
    ttl, between one minute and 24 hours after that reading, and
    [created_at] equal to the second clock reading; the two are exactly one
    ttl apart when both readings agree.  An Inspect made no later than
    [expires_at] leaves the collection unchanged and reports that
    [expires_at], [has_pin] true exactly when a [pin_hash] was supplied, and
    the requested [one_time_view]. *)
Theorem create_sets_expiry_from_first_reading :
  forall (c : Collection.t) (token : string) (now1 now2 : Z)
         (secret : SecretCreate.t),
    SecretCreate.valid secret ->
    Collection.count_documents token c = 0%nat ->
    let ttl := timedelta_minutes (SecretCreate.expiry_minutes secret) in
    let c1 := fst (run (create_secret token now1 now2 secret) c) in
    exists d,
      Collection.find_one token c1 = Some d /\
      Doc.expires_at d = now1 + ttl /\
      Doc.created_at d = now2 /\
      Doc.viewed d = false /\
      now1 + 60000000 <= Doc.expires_at d <= now1 + 86400000000 /\
      (now2 = now1 -> Doc.expires_at d = Doc.created_at d + ttl) /\
      forall now, now <= now1 + ttl ->
        run (get_secret_info token now) c1 =
        (c1, Ok {| SecretInfo.has_pin := is_not_None (SecretCreate.pin_hash secret);
                   SecretInfo.one_time_view := SecretCreate.one_time_view secret;
                   SecretInfo.expires_at := now1 + ttl |}).
Proof.
  intros c token now1 now2 secret [Hlo Hhi] Hfresh; cbv zeta.
  rewrite run_create_secret; cbn [fst].
  assert (Hf : Collection.find_one token (c ++ [doc_of token now1 now2 secret])
               = Some (doc_of token now1 now2 secret)).
  { rewrite find_one_app, (count_documents_0_find_one token c Hfresh).
    unfold Collection.find_one, Collection.has_id; cbn [find doc_of Doc.id].
    rewrite String.eqb_refl; reflexivity. }
  exists (doc_of token now1 now2 secret).
  split; [exact Hf|].
  split; [reflexivity|]. split; [reflexivity|]. split; [reflexivity|].
  split; [cbn [doc_of Doc.expires_at]; unfold timedelta_minutes; lia|].
  split; [intros ->; reflexivity|].
  intros now Hnow.
  rewrite run_get_secret_info, Hf.
  assert (He : expired now (doc_of token now1 now2 secret) = false)
    by (apply expired_false; exact Hnow).
  rewrite He; unfold consumed; cbn [doc_of Doc.viewed Doc.one_time_view].
  rewrite andb_false_r; reflexivity.
Qed.

Lemma create_sets_expiry_from_first_reading_witness :
  exists d,
    Collection.find_one token_a
      (fst (run (create_secret token_a t0 (t0 + 1) pin_secret) [])) = Some d /\
    Doc.expires_at d = t0 + 3600000000 /\
    Doc.created_at d = t0 + 1.
Proof.
  destruct (create_sets_expiry_from_first_reading [] token_a t0 (t0 + 1) pin_secret)
    as (d & Hf & He & Hc & _).
  - vm_compute; split; discriminate.
  - reflexivity.
  - exists d; split; [exact Hf|]; split; [exact He | exact Hc].
Defined.

(** C8, as the spec states it, fails: [create_secret] draws one token and
    calls [insert_one] once, with no existence check and no retry.  When the
    drawn token is already stored, the call still answers "Secret created
    successfully" with that same token, and two records carry it. *)
Lemma create_on_collision_duplicates :
  run (create_secret token_a (t0 + 7) (t0 + 8) pin_secret) one_time_store
  = (one_time_store ++ [doc_of token_a (t0 + 7) (t0 + 8) pin_secret],
     Ok (SecretResponse.mk token_a "Secret created successfully")) /\
  Collection.count_documents token_a one_time_store = 1%nat /\
  Collection.count_documents token_a
    (fst (run (create_secret token_a (t0 + 7) (t0 + 8) pin_secret) one_time_store))
  = 2%nat.
Proof. repeat split. Qed.

(** C8, amended.  Create uses the one token it drew and performs a single
    plain insert: it always answers with that token, every record stored
    before is still stored, unchanged and in the same order, followed by the
    one new record, so nothing is overwritten; the lookup of any token that
    was already stored gives the record it gave before; and the new record
    is the only one under its token exactly when the token was not stored
    before. *)
Theorem create_inserts_once_without_check :
  forall (c : Collection.t) (token : string) (now1 now2 : Z)
         (secret : SecretCreate.t),
    let c1 := fst (run (create_secret token now1 now2 secret) c) in
    snd (run (create_secret token now1 now2 secret) c)
      = Ok (SecretResponse.mk token "Secret created successfully") /\
    c1 = c ++ [doc_of token now1 now2 secret] /\
    (forall secret_id d, Collection.find_one secret_id c = Some d ->
                         Collection.find_one secret_id c1 = Some d) /\
    Collection.count_documents token c1 = S (Collection.count_documents token c) /\
    (Collection.count_documents token c1 = 1%nat
     <-> Collection.count_documents token c = 0%nat).
Proof.
  intros c token now1 now2 secret; cbv zeta.
  rewrite run_create_secret; cbn [fst snd].
  assert (Hn : Collection.count_documents token (c ++ [doc_of token now1 now2 secret])
               = S (Collection.count_documents token c)).
  { rewrite count_documents_app.
    unfold Collection.count_documents at 2, Collection.has_id.
    cbn [filter doc_of Doc.id]; rewrite String.eqb_refl; cbn [List.length]; lia. }
  split; [reflexivity|]. split; [reflexivity|]. split.
  - intros secret_id d Hf; rewrite find_one_app, Hf; reflexivity.
  - split; [exact Hn | rewrite Hn; lia].
Qed.

Lemma create_inserts_once_without_check_witness :
  Collection.count_documents token_a
    (fst (run (create_secret token_a t0 (t0 + 1) pin_secret) [])) = 1%nat.
Proof.
  destruct (create_inserts_once_without_check [] token_a t0 (t0 + 1) pin_secret)
    as (_ & _ & _ & _ & H).
  apply H; reflexivity.
Defined.

(** ** Two viewers on the event loop *)

(** [run] is [step] iterated: the sequential behaviour of a handler is the
    schedule that never switches task. *)
Lemma run_step {A : Type} (p : coro A) (c : Collection.t) :
  run p c = run (snd (step p c)) (fst (step p c)).
Proof.
  destruct p; simpl; try reflexivity;
    match goal with
    | |- context [Collection.delete_one ?i ?c] =>
        destruct (Collection.delete_one i c); reflexivity
    end.
Qed.

(** The first awaited call of [view_secret] on a record that passes every
    check: the task is left suspended on [update_one], holding the document
    it fetched. *)
Lemma view_secret_first_step secret_id pin_data now c d :
  Collection.find_one secret_id c = Some d ->
  expired now d = false ->
  Doc.one_time_view d = true ->
  Doc.viewed d = false ->
  pin_gate d pin_data = None ->
  step (view_secret secret_id pin_data now) c
  = (c, Await_update_one secret_id Doc.set_viewed
          (fun _ => Return (fetch_of d))).
Proof.
  unfold expired, pin_gate, view_secret, fetch_of; simpl.
  intros -> -> Hot -> Hg; rewrite Hot; simpl.
  destruct (truthy_opt (Doc.pin_hash d)); simpl; [|reflexivity].
  destruct pin_data as [p|]; [|discriminate].
  destruct (negb (truthy (PinVerify.pin_hash p))); [discriminate|]; simpl.
  destruct (Doc.pin_hash d) as [h|]; [|discriminate].
  destruct (String.eqb (PinVerify.pin_hash p) h); [reflexivity | discriminate].
Qed.

(** Any two Views of a live, unviewed one-time record that both fetch before
    either flags are both answered with the payload. *)
Lemma two_views_race secret_id p1 p2 n1 n2 c d :
  Collection.find_one secret_id c = Some d ->
  expired n1 d = false ->
  expired n2 d = false ->
  Doc.one_time_view d = true ->
  Doc.viewed d = false ->
  pin_gate d p1 = None ->
  pin_gate d p2 = None ->
  map outcome
    (snd (event_loop [0; 1; 0; 1]%nat
            [view_secret secret_id p1 n1; view_secret secret_id p2 n2] c))
  = [Some (Ok (fetch_of d)); Some (Ok (fetch_of d))].
Proof.
  intros Hf H1 H2 Hot Hv G1 G2.
  cbn [event_loop resume].
  rewrite (view_secret_first_step _ _ _ _ _ Hf H1 Hot Hv G1).
  rewrite (view_secret_first_step _ _ _ _ _ Hf H2 Hot Hv G2).
  reflexivity.
Qed.

(** The event loop over a whole round. *)
Lemma event_loop_app {A : Type} (s1 s2 : list nat) (tasks : list (coro A)) c :
  event_loop (s1 ++ s2) tasks c =
  event_loop s2 (snd (event_loop s1 tasks c)) (fst (event_loop s1 tasks c)).
Proof.
  revert tasks c; induction s1 as [|i s1 IH]; intros tasks c; [reflexivity|].
  cbn [app event_loop].
  destruct (resume i tasks c) as [c' tasks']; apply IH.
Qed.

Lemma resume_app {A : Type} (pre : list (coro A)) t ts c :
  resume (List.length pre) (pre ++ t :: ts) c =
  (fst (step t c), pre ++ snd (step t c) :: ts).
Proof.
  induction pre as [|x pre IH]; cbn [List.length app resume].
  - destruct (step t c); reflexivity.
  - rewrite IH; reflexivity.
Qed.

Lemma event_loop_round {A : Type} (ts pre : list (coro A)) c :
  event_loop (seq (List.length pre) (List.length ts)) (pre ++ ts) c =
  (fst (sweep ts c), pre ++ snd (sweep ts c)).
Proof.
  revert pre c; induction ts as [|t ts IH]; intros pre c.
  - cbn; rewrite app_nil_r; reflexivity.
  - cbn [List.length seq event_loop sweep].
    rewrite resume_app.
    replace (pre ++ snd (step t c) :: ts) with ((pre ++ [snd (step t c)]) ++ ts)
      by (rewrite <- app_assoc; reflexivity).
    replace (S (List.length pre)) with (List.length (pre ++ [snd (step t c)]))
      by (rewrite length_app; cbn; lia).
    rewrite IH.
    destruct (step t c) as [c1 t']; cbn [fst snd].
    destruct (sweep ts c1) as [c2 ts']; cbn [fst snd].
    rewrite <- app_assoc; reflexivity.
Qed.

Lemma sweep_fetch secret_id pin_data now d n c :
  Collection.find_one secret_id c = Some d ->
  expired now d = false ->
  Doc.one_time_view d = true ->
  Doc.viewed d = false ->
  pin_gate d pin_data = None ->
  sweep (repeat (view_secret secret_id pin_data now) n) c =
  (c, repeat (Await_update_one secret_id Doc.set_viewed
                (fun _ => Return (fetch_of d))) n).
Proof.
  intros Hf He Hot Hv Hg; induction n as [|n IH]; [reflexivity|].
  cbn [repeat sweep].
  rewrite (view_secret_first_step _ _ _ _ _ Hf He Hot Hv Hg), IH; reflexivity.
Qed.

Lemma sweep_flag secret_id (f : SecretFetch.t) n c :
  snd (sweep (repeat (Await_update_one secret_id Doc.set_viewed
                        (fun _ => Return f)) n) c)
  = repeat (Return f) n.
Proof.
  revert c; induction n as [|n IH]; intros c; [reflexivity|].
  cbn [repeat sweep step].
  specialize (IH (Collection.update_one secret_id Doc.set_viewed c)).
  destruct (sweep _ (Collection.update_one secret_id Doc.set_viewed c)) as [c2 ts'].
  cbn [snd] in *; rewrite IH; reflexivity.
Qed.

(** Any number of Views of a live, unviewed one-time record that all fetch
    before any of them flags are all answered with the payload. *)
Lemma all_views_race secret_id pin_data now d n c :
  Collection.find_one secret_id c = Some d ->
  expired now d = false ->
  Doc.one_time_view d = true ->
  Doc.viewed d = false ->
  pin_gate d pin_data = None ->
  map outcome
    (snd (event_loop (two_rounds n)
            (repeat (view_secret secret_id pin_data now) n) c))
  = repeat (Some (Ok (fetch_of d))) n.
Proof.
  intros Hf He Hot Hv Hg; unfold two_rounds.
  rewrite event_loop_app.
  pose proof (event_loop_round (repeat (view_secret secret_id pin_data now) n) [] c) as H1.
  cbn [List.length app] in H1; rewrite repeat_length in H1; rewrite H1.
  rewrite (sweep_fetch _ _ _ _ n _ Hf He Hot Hv Hg); cbn [fst snd].
  pose proof (event_loop_round
                (repeat (Await_update_one secret_id Doc.set_viewed
                           (fun _ => Return (fetch_of d))) n) [] c) as H2.
  cbn [List.length app] in H2; rewrite repeat_length in H2; rewrite H2.
  cbn [snd]; rewrite sweep_flag, map_repeat; reflexivity.
Qed.

(** C1 fails on the code.  View requests for the same one-time token run as
    tasks that are resumed one awaited store call at a time.  With two
    tasks, when each task's [find_one] is served before either task's
    [update_one] (schedule 0, 1, 0, 1) both return the ciphertext; when the
    first task finishes before the second starts (schedule 0, 0, 1, 1) the
    second is answered 410 "Secret has already been viewed".  With fifty
    tasks that all fetch before any of them flags, all fifty return the
    ciphertext. *)
Theorem concurrent_views_both_get_ciphertext :
  map outcome (snd (event_loop [0; 1; 0; 1]%nat two_viewers one_time_store))
  = [Some (Ok (SecretFetch.mk "AB==" "12" true (t0 + 3600000000) false));
     Some (Ok (SecretFetch.mk "AB==" "12" true (t0 + 3600000000) false))] /\
  map outcome (snd (event_loop [0; 0; 1; 1]%nat two_viewers one_time_store))
  = [Some (Ok (SecretFetch.mk "AB==" "12" true (t0 + 3600000000) false));
     Some (Err already_viewed)] /\
  map outcome (snd (event_loop (two_rounds 50) fifty_viewers one_time_store))
  = repeat (Some (Ok (SecretFetch.mk "AB==" "12" true (t0 + 3600000000) false))) 50.
Proof.
  split; [reflexivity|]; split; [reflexivity|].
  exact (all_views_race token_a None (t0 + 1)
           (doc_of token_a t0 t0 one_time_secret) 50 one_time_store
           eq_refl eq_refl eq_refl eq_refl eq_refl).
Qed.

(** * Further properties of the handlers *)

(** ** More facts about the collection *)

Lemma all_under_absent token c :
  all_under token (fun _ => False) c <-> Collection.count_documents token c = 0%nat.
Proof.
  split.
  - intros H; unfold Collection.count_documents.
    destruct (filter (Collection.has_id token) c) as [|d l] eqn:E; [reflexivity|].
    assert (Hin : In d (filter (Collection.has_id token) c)) by (rewrite E; left; reflexivity).
    apply filter_In in Hin as [Hin Hid]; destruct (H d Hin Hid).
  - intros H d Hin Hid.
    rewrite (count_documents_0 token c d H Hin) in Hid; discriminate.
Qed.

Lemma delete_one_absent secret_id c :
  Collection.count_documents secret_id c = 0%nat ->
  Collection.delete_one secret_id c = (c, 0).
Proof.
  unfold Collection.count_documents.
  induction c as [|d c IH]; simpl; [reflexivity|].
  destruct (Collection.has_id secret_id d); simpl; [discriminate|].
  intros H; rewrite (IH H); reflexivity.
Qed.

Lemma delete_one_present secret_id c :
  Collection.count_documents secret_id c <> 0%nat ->
  snd (Collection.delete_one secret_id c) = 1 /\
  Collection.count_documents secret_id (fst (Collection.delete_one secret_id c))
    = pred (Collection.count_documents secret_id c) /\
  List.length (fst (Collection.delete_one secret_id c)) = pred (List.length c).
Proof.
  unfold Collection.count_documents.
  induction c as [|d c IH]; simpl; [congruence|].
  destruct (Collection.has_id secret_id d) eqn:E; simpl; [auto|].
  intros H; destruct (IH H) as (H1 & H2 & H3).
  destruct (Collection.delete_one secret_id c) as [r n]; simpl in *.
  rewrite E; simpl; repeat split; [exact H1 | exact H2|].
  rewrite H3; destruct c; [simpl in H; congruence | reflexivity].
Qed.

Lemma has_id_other a b d :
  a <> b -> Collection.has_id a d = true -> Collection.has_id b d = false.
Proof.
  unfold Collection.has_id; intros Hab Ha.
  apply String.eqb_eq in Ha; apply String.eqb_neq; congruence.
Qed.

Lemma filter_delete_one_other a b c :
  a <> b ->
  filter (Collection.has_id b) (fst (Collection.delete_one a c))
  = filter (Collection.has_id b) c.
Proof.
  intros Hab; induction c as [|d c IH]; simpl; [reflexivity|].
  destruct (Collection.has_id a d) eqn:E; simpl.
  - rewrite (has_id_other a b d Hab E); reflexivity.
  - destruct (Collection.delete_one a c) as [r n]; simpl in *.
    rewrite IH; reflexivity.
Qed.

Lemma filter_update_one_other a b c :
  a <> b ->
  filter (Collection.has_id b) (Collection.update_one a Doc.set_viewed c)
  = filter (Collection.has_id b) c.
Proof.
  intros Hab; induction c as [|d c IH]; simpl; [reflexivity|].
  destruct (Collection.has_id a d) eqn:E; simpl.
  - rewrite has_id_set_viewed, (has_id_other a b d Hab E); reflexivity.
  - rewrite IH; reflexivity.
Qed.

Lemma find_one_filter token c :
  Collection.find_one token c = hd_error (filter (Collection.has_id token) c).
Proof.
  unfold Collection.find_one.
  induction c as [|d c IH]; simpl; [reflexivity|].
  destruct (Collection.has_id token d); [reflexivity | exact IH].
Qed.

Lemma find_one_count token c d :
  Collection.find_one token c = Some d ->
  Collection.count_documents token c <> 0%nat.
Proof.
  rewrite find_one_filter; unfold Collection.count_documents.
  destruct (filter (Collection.has_id token) c); simpl; [discriminate | congruence].
Qed.

(** Deleting after flagging removes the record that was flagged. *)
Lemma delete_one_update_one token c :
  Collection.delete_one token (Collection.update_one token Doc.set_viewed c)
  = Collection.delete_one token c.
Proof.
  induction c as [|d c IH]; simpl; [reflexivity|].
  destruct (Collection.has_id token d) eqn:E; simpl.
  - rewrite has_id_set_viewed, E; reflexivity.
  - rewrite E, IH; reflexivity.
Qed.

Lemma update_one_first token c d :
  Collection.find_one token c = Some d ->
  Collection.find_one token (Collection.update_one token Doc.set_viewed c)
    = Some (Doc.set_viewed d) /\
  List.length (Collection.update_one token Doc.set_viewed c) = List.length c /\
  Collection.count_documents token (Collection.update_one token Doc.set_viewed c)
    = Collection.count_documents token c.
Proof.
  unfold Collection.find_one, Collection.count_documents.
  induction c as [|x c IH]; simpl; [discriminate|].
  destruct (Collection.has_id token x) eqn:E; simpl.
  - intros [= ->]; rewrite has_id_set_viewed, E; simpl; auto.
  - intros H; destruct (IH H) as (H1 & H2 & H3).
    rewrite E, H1, H2, H3; auto.
Qed.

(** The flagged document is the one [find_one] returns. *)
Lemma update_one_In_first token c d' :
  In d' (Collection.update_one token Doc.set_viewed c) ->
  In d' c \/
  exists d, Collection.find_one token c = Some d /\ In d c /\ d' = Doc.set_viewed d.
Proof.
  unfold Collection.find_one.
  induction c as [|x c IH]; simpl; [tauto|].
  destruct (Collection.has_id token x) eqn:E; simpl.
  - intros [<-|H]; [right; exists x; auto | left; right; exact H].
  - intros [<-|H]; [left; left; reflexivity|].
    destruct (IH H) as [H1|(d & H1 & H2 & H3)]; [left; right; exact H1|].
    right; exists d; auto.
Qed.

(** ** Histories, continued *)

Lemma serve_keeps_all_under (token : string) (P : Doc.t -> Prop) :
  (forall d, P d -> P (Doc.set_viewed d)) ->
  forall rs c,
    all_under token P c ->
    Forall (fun r => ~ creates token r) rs ->
    all_under token P (fst (serve rs c)).
Proof.
  intros HP rs; induction rs as [|r rs IH]; intros c Hc Hrs; [exact Hc|].
  inversion Hrs as [|? ? Hr Hrs']; subst.
  cbn [serve].
  pose proof (handler_all_under token P r c HP Hr Hc) as Hc1.
  destruct (handler r c) as [c1 x]; cbn [fst] in Hc1.
  specialize (IH c1 Hc1 Hrs').
  destruct (serve rs c1) as [c2 xs]; exact IH.
Qed.

Lemma handler_answers_absent token r c :
  Collection.count_documents token c = 0%nat ->
  answers_absent token r (snd (handler r c)).
Proof.
  intros H0; split.
  - intros Hr.
    destruct r as [t n1 n2 s|i n|i p n|i|n]; simpl in Hr; try contradiction;
      subst i; unfold handler.
    + rewrite run_get_secret_info, (count_documents_0_find_one token c H0); reflexivity.
    + rewrite run_view_secret, (count_documents_0_find_one token c H0); reflexivity.
  - intros ->; unfold handler.
    rewrite run_delete_secret, (delete_one_absent token c H0); reflexivity.
Qed.

Lemma serve_absent token rs c :
  Collection.count_documents token c = 0%nat ->
  Forall (fun r => ~ creates token r) rs ->
  Collection.count_documents token (fst (serve rs c)) = 0%nat /\
  Forall2 (answers_absent token) rs (snd (serve rs c)).
Proof.
  intros H0 Hrs; apply all_under_absent in H0; split.
  - apply all_under_absent.
    apply (serve_keeps_all_under token (fun _ => False)); auto.
  - apply (serve_all_under token (fun _ => False)); auto.
    intros r c0 Hc0; apply handler_answers_absent, all_under_absent, Hc0.
Qed.

(** ** Explicit deletion *)

(** X1.  [delete_secret] answers 404 "Secret not found" exactly when no
    record carries the id, and then leaves the collection as it was.
    Otherwise it answers "Secret deleted successfully" and removes one
    record under that id, so the collection is one record shorter; in both
    cases the records under every other id stay as they were. *)
Theorem delete_secret_removes_one_match :
  forall (c : Collection.t) (secret_id : string),
    (Collection.count_documents secret_id c = 0%nat ->
       run (delete_secret secret_id) c = (c, Err secret_not_found)) /\
    (Collection.count_documents secret_id c <> 0%nat ->
       snd (run (delete_secret secret_id) c) = Ok "Secret deleted successfully" /\
       Collection.count_documents secret_id (fst (run (delete_secret secret_id) c))
         = pred (Collection.count_documents secret_id c) /\
       List.length (fst (run (delete_secret secret_id) c)) = pred (List.length c)) /\
    (forall other, secret_id <> other ->
       filter (Collection.has_id other) (fst (run (delete_secret secret_id) c))
       = filter (Collection.has_id other) c).
Proof.
  intros c secret_id; rewrite run_delete_secret; cbn [fst snd].
  split; [|split].
  - intros H; rewrite (delete_one_absent _ _ H); reflexivity.
  - intros H; destruct (delete_one_present _ _ H) as (H1 & H2 & H3).
    rewrite H1; auto.
  - intros other Hne; apply filter_delete_one_other, Hne.
Qed.

Lemma delete_secret_removes_one_match_witness :
  run (delete_secret token_b) one_time_store
    = (one_time_store, Err secret_not_found) /\
  run (delete_secret token_a) mixed_store
    = (plain_store, Ok "Secret deleted successfully").
Proof.
  destruct (delete_secret_removes_one_match one_time_store token_b) as (H1 & _).
  split; [apply H1; reflexivity | reflexivity].
Defined.

(** X2.  A token that names no record keeps naming none: through any
    sequence of requests that does not draw it in a Create, every Inspect
    and View of it is answered 404 "Secret not found or has expired", every
    Delete of it 404 "Secret not found", and the collection never holds a
    record under it. *)
Theorem absent_token_stays_absent :
  forall (token : string) (rs : list request) (c : Collection.t),
    Collection.count_documents token c = 0%nat ->
    Forall (fun r => ~ creates token r) rs ->
    Collection.count_documents token (fst (serve rs c)) = 0%nat /\
    Forall2 (answers_absent token) rs (snd (serve rs c)).
Proof. intros token rs c; apply serve_absent. Qed.

Lemma absent_token_stays_absent_witness :
  Forall2 (answers_absent token_a)
    [View token_a None t0; Create token_b t0 t0 plain_secret;
     Inspect token_a (t0 + 1); Delete token_a]
    (snd (serve [View token_a None t0; Create token_b t0 t0 plain_secret;
                 Inspect token_a (t0 + 1); Delete token_a] plain_store)).
Proof.
  apply (absent_token_stays_absent token_a).
  - reflexivity.
  - repeat constructor; simpl; try tauto.
    vm_compute; discriminate.
Defined.

(** X3.  After a Delete of a token that named at most one record, the token
    names none: in any later sequence of requests that does not draw it
    again, every Inspect and View of it and every further Delete of it is
    answered 404. *)
Theorem delete_is_final :
  forall (token : string) (rs : list request) (c : Collection.t),
    (Collection.count_documents token c <= 1)%nat ->
    Forall (fun r => ~ creates token r) rs ->
    Collection.count_documents token (fst (run (delete_secret token) c)) = 0%nat /\
    Forall2 (answers_absent token) rs
      (snd (serve rs (fst (run (delete_secret token) c)))).
Proof.
  intros token rs c Hu Hrs.
  assert (H0 : Collection.count_documents token (fst (run (delete_secret token) c))
               = 0%nat).
  { rewrite run_delete_secret; cbn [fst].
    destruct (Nat.eq_dec (Collection.count_documents token c) 0) as [E|E].
    - rewrite (delete_one_absent _ _ E); exact E.
    - destruct (delete_one_present _ _ E) as (_ & H2 & _); lia. }
  split; [exact H0 | apply serve_absent; assumption].
Qed.

Lemma delete_is_final_witness :
  Forall2 (answers_absent token_a)
    [Inspect token_a (t0 + 1); Delete token_a; View token_a None (t0 + 2)]
    (snd (serve [Inspect token_a (t0 + 1); Delete token_a; View token_a None (t0 + 2)]
            (fst (run (delete_secret token_a) mixed_store)))).
Proof.
  apply (delete_is_final token_a).
  - vm_compute; lia.
  - repeat constructor; simpl; tauto.
Defined.

(** X4.  Create followed by Delete of the drawn token, when the token was
    not stored before, answers "Secret deleted successfully" and gives back
    the collection as it was before the Create. *)
Theorem create_then_delete_restores :
  forall (c : Collection.t) (token : string) (now1 now2 : Z)
         (secret : SecretCreate.t),
    Collection.count_documents token c = 0%nat ->
    run (delete_secret token) (fst (run (create_secret token now1 now2 secret) c))
    = (c, Ok "Secret deleted successfully").
Proof.
  intros c token now1 now2 secret H0.
  rewrite run_create_secret, run_delete_secret; cbn [fst].
  assert (Hd : Collection.delete_one token (c ++ [doc_of token now1 now2 secret])
               = (c, 1)).
  { unfold Collection.count_documents in H0.
    induction c as [|d c IH]; simpl.
    - unfold Collection.has_id; cbn [doc_of Doc.id]; rewrite String.eqb_refl; reflexivity.
    - simpl in H0; destruct (Collection.has_id token d); [discriminate|].
      rewrite (IH H0); reflexivity. }
  rewrite Hd; reflexivity.
Qed.

Lemma create_then_delete_restores_witness :
  run (delete_secret token_a)
    (fst (run (create_secret token_a t0 (t0 + 1) pin_secret) plain_store))
  = (plain_store, Ok "Secret deleted successfully").
Proof. apply create_then_delete_restores; reflexivity. Defined.

(** ** Purges *)

(** X5.  A read made strictly after [expires_at] (Inspect, or View with any
    body, whatever the record's PIN) is answered 410 "Secret has expired"
    and deletes the fetched record.  When the token named only that record,
    it names none afterwards: every later Inspect, View and Delete of it, in
    any sequence of requests that does not draw it again, is answered 404. *)
Theorem expired_read_purges :
  forall (c : Collection.t) (token : string) (d : Doc.t) (now : Z)
         (r : request) (rs : list request),
    Collection.find_one token c = Some d ->
    now > Doc.expires_at d ->
    reads_at token now r ->
    handler r c = (fst (Collection.delete_one token c), Denied has_expired) /\
    Collection.count_documents token (fst (handler r c))
      = pred (Collection.count_documents token c) /\
    ((Collection.count_documents token c <= 1)%nat ->
     Forall (fun r' => ~ creates token r') rs ->
     Forall2 (answers_absent token) rs (snd (serve rs (fst (handler r c))))).
Proof.
  intros c token d now r rs Hf Hnow Hr.
  apply expired_spec in Hnow.
  assert (Hh : handler r c = (fst (Collection.delete_one token c), Denied has_expired)).
  { destruct r as [t n1 n2 s|i n|i p n|i|n]; simpl in Hr; try contradiction;
      destruct Hr as [-> ->]; unfold handler.
    - rewrite run_get_secret_info, Hf, Hnow; reflexivity.
    - rewrite run_view_secret, Hf, Hnow; reflexivity. }
  rewrite Hh; cbn [fst].
  destruct (delete_one_present _ _ (find_one_count _ _ _ Hf)) as (_ & H2 & _).
  split; [reflexivity|]; split; [exact H2|].
  intros Hu Hrs; apply serve_absent; [lia | exact Hrs].
Qed.

Lemma expired_read_purges_witness :
  handler (View token_a None (t0 + 3600000001)) pin_store
    = ([], Denied has_expired) /\
  Forall2 (answers_absent token_a) [Inspect token_a (t0 + 3600000002)]
    (snd (serve [Inspect token_a (t0 + 3600000002)]
            (fst (handler (View token_a None (t0 + 3600000001)) pin_store)))).
Proof.
  destruct (expired_read_purges pin_store token_a (doc_of token_a t0 t0 pin_secret)
              (t0 + 3600000001) (View token_a None (t0 + 3600000001))
              [Inspect token_a (t0 + 3600000002)]) as (H1 & _ & H3).
  - reflexivity.
  - vm_compute; reflexivity.
  - simpl; auto.
  - split; [exact H1|].
    apply H3; [vm_compute; lia | repeat constructor; simpl; tauto].
Defined.

(** X6.  A successful View of a one-time record flags the record and does
    not delete it: the record is still the one stored under the token, with
    every field but [viewed] as before, and the collection has as many
    records as before.  The next Inspect or View of the token made no later
    than [expires_at], with any body, is answered 410 "Secret has already
    been viewed" and deletes that record. *)
Theorem one_time_view_flags_then_next_read_purges :
  forall (c : Collection.t) (token : string) (d : Doc.t)
         (pin_data : option PinVerify.t) (now now' : Z) (r : request),
    Collection.find_one token c = Some d ->
    Doc.one_time_view d = true ->
    Doc.viewed d = false ->
    now <= Doc.expires_at d ->
    pin_gate d pin_data = None ->
    now' <= Doc.expires_at d ->
    reads_at token now' r ->
    let c1 := fst (run (view_secret token pin_data now) c) in
    snd (run (view_secret token pin_data now) c) = Ok (fetch_of d) /\
    Collection.find_one token c1 = Some (Doc.set_viewed d) /\
    List.length c1 = List.length c /\
    handler r c1 = (fst (Collection.delete_one token c), Denied already_viewed).
Proof.
  intros c token d pin_data now now' r Hf Hot Hv Hnow Hg Hnow' Hr; cbv zeta.
  apply expired_false in Hnow.
  assert (Hc0 : consumed d = false)
    by (unfold consumed; rewrite Hv; apply andb_false_r).
  rewrite run_view_secret, Hf, Hnow, Hc0, Hg, Hot; cbn [fst snd].
  destruct (update_one_first _ _ _ Hf) as (H1 & H2 & _).
  split; [reflexivity|]; split; [exact H1|]; split; [exact H2|].
  assert (He : expired now' (Doc.set_viewed d) = false)
    by (apply expired_false; exact Hnow').
  assert (Hc : consumed (Doc.set_viewed d) = true)
    by (unfold consumed; simpl; rewrite Hot; reflexivity).
  destruct r as [t n1 n2 s|i n|i p n|i|n]; simpl in Hr; try contradiction;
    destruct Hr as [-> ->]; unfold handler.
  - rewrite run_get_secret_info, H1, He, Hc, delete_one_update_one; reflexivity.
  - rewrite run_view_secret, H1, He, Hc, delete_one_update_one; reflexivity.
Qed.

Lemma one_time_view_flags_then_next_read_purges_witness :
  Collection.find_one token_a
    (fst (run (view_secret token_a None (t0 + 1)) mixed_store))
    = Some (Doc.set_viewed (doc_of token_a t0 t0 one_time_secret)) /\
  handler (Inspect token_a (t0 + 2))
    (fst (run (view_secret token_a None (t0 + 1)) mixed_store))
    = (plain_store, Denied already_viewed).
Proof.
  destruct (one_time_view_flags_then_next_read_purges mixed_store token_a
              (doc_of token_a t0 t0 one_time_secret) None (t0 + 1) (t0 + 2)
              (Inspect token_a (t0 + 2))) as (_ & H2 & _ & H4).
  - reflexivity.
  - reflexivity.
  - reflexivity.
  - vm_compute; discriminate.
  - reflexivity.
  - vm_compute; discriminate.
  - simpl; auto.
  - split; [exact H2 | exact H4].
Defined.

(** ** Views of records that are not one-time *)

(** X7.  Views of a record that is not one-time never change the
    collection: any number of them, made no later than [expires_at] with a
    body that passes the PIN gate, are all answered with the same payload
    and leave the collection as it was. *)
Theorem persistent_views_repeat :
  forall (c : Collection.t) (token : string) (d : Doc.t)
         (qs : list (option PinVerify.t * Z)),
    Collection.find_one token c = Some d ->
    Doc.one_time_view d = false ->
    Forall (fun q => snd q <= Doc.expires_at d /\ pin_gate d (fst q) = None) qs ->
    serve (map (fun q => View token (fst q) (snd q)) qs) c
    = (c, map (fun _ => Fetched (fetch_of d)) qs).
Proof.
  intros c token d qs Hf Hot Hqs.
  assert (Hc : consumed d = false) by (unfold consumed; rewrite Hot; reflexivity).
  induction Hqs as [|[p n] qs [Hn Hg] _ IH]; [reflexivity|].
  cbn [map serve fst snd] in *; unfold handler.
  apply expired_false in Hn.
  rewrite run_view_secret, Hf, Hn, Hc, Hg, Hot; cbn [reply].
  rewrite IH; reflexivity.
Qed.

Lemma persistent_views_repeat_witness :
  serve [View token_b None (t0 + 1);
         View token_b (Some (PinVerify.mk digest_wrong)) (t0 + 2);
         View token_b None (t0 + 300000000)] plain_store
  = (plain_store,
     [Fetched (SecretFetch.mk "Q0Q=" "34" false (t0 + 300000000) false);
      Fetched (SecretFetch.mk "Q0Q=" "34" false (t0 + 300000000) false);
      Fetched (SecretFetch.mk "Q0Q=" "34" false (t0 + 300000000) false)]).
Proof.
  apply (persistent_views_repeat plain_store token_b
           (doc_of token_b t0 t0 plain_secret)
           [(None, t0 + 1); (Some (PinVerify.mk digest_wrong), t0 + 2);
            (None, t0 + 300000000)]).
  - reflexivity.
  - reflexivity.
  - repeat constructor; vm_compute; discriminate.
Defined.

(** ** The PIN gate, both ways *)

(** X8.  On a record that is neither expired nor consumed, View returns the
    payload exactly when the stored digest is absent or empty, or the body
    carries a digest equal to the stored one. *)
Theorem view_succeeds_iff_pin_matches :
  forall (c : Collection.t) (token : string) (d : Doc.t)
         (pin_data : option PinVerify.t) (now : Z),
    Collection.find_one token c = Some d ->
    expired now d = false ->
    consumed d = false ->
    (snd (run (view_secret token pin_data now) c) = Ok (fetch_of d)
     <-> (truthy_opt (Doc.pin_hash d) = false \/
          exists p, pin_data = Some p /\ Doc.pin_hash d = Some (PinVerify.pin_hash p))).
Proof.
  intros c token d pin_data now Hf He Hc.
  rewrite run_view_secret, Hf, He, Hc; unfold pin_gate.
  destruct (truthy_opt (Doc.pin_hash d)) eqn:Ht.
  - destruct (Doc.pin_hash d) as [h|] eqn:Hh; [|discriminate Ht].
    simpl in Ht.
    destruct pin_data as [[p]|]; cbn [PinVerify.pin_hash].
    + destruct (truthy p) eqn:Hp; cbn [negb].
      * destruct (String.eqb p h) eqn:E.
        -- apply String.eqb_eq in E; subst h; split; [|reflexivity].
           intros _; right; exists (PinVerify.mk p); auto.
        -- apply String.eqb_neq in E; split; [discriminate|].
           intros [H|(q & [= <-] & [= <-])]; [discriminate | congruence].
      * split; [discriminate|].
        intros [H|(q & [= <-] & [= <-])]; [discriminate|].
        cbn in Hp; congruence.
    + split; [discriminate|].
      intros [H|(q & H & _)]; discriminate.
  - split; [auto | reflexivity].
Qed.

Lemma view_succeeds_iff_pin_matches_witness :
  snd (run (view_secret token_a (Some (PinVerify.mk digest_1234)) (t0 + 1)) pin_store)
  = Ok (fetch_of (doc_of token_a t0 t0 pin_secret)).
Proof.
  apply (view_succeeds_iff_pin_matches pin_store token_a
           (doc_of token_a t0 t0 pin_secret)
           (Some (PinVerify.mk digest_1234)) (t0 + 1));
    try reflexivity.
  right; exists (PinVerify.mk digest_1234); split; reflexivity.
Defined.

(** X9.  A record created with an empty digest is reported with
    [has_pin] true by Inspect and by View, since the stored value is not
    [None], while View asks for no PIN, since the stored value is falsy:
    View succeeds with no body and with any body. *)
Theorem empty_digest_reports_pin_but_asks_none :
  forall (c : Collection.t) (token : string) (d : Doc.t) (now : Z),
    Collection.find_one token c = Some d ->
    Doc.pin_hash d = Some "" ->
    expired now d = false ->
    consumed d = false ->
    (exists i, snd (run (get_secret_info token now) c) = Ok i /\
               SecretInfo.has_pin i = true) /\
    (forall pin_data,
        exists f, snd (run (view_secret token pin_data now) c) = Ok f /\
                  SecretFetch.has_pin f = true /\
                  SecretFetch.encrypted_data f = Doc.encrypted_data d).
Proof.
  intros c token d now Hf Hp He Hc; split.
  - exists (info_of d); rewrite run_get_secret_info, Hf, He, Hc.
    unfold info_of; rewrite Hp; auto.
  - intros pin_data; exists (fetch_of d).
    rewrite run_view_secret, Hf, He, Hc.
    unfold pin_gate, fetch_of; rewrite Hp; cbn.
    destruct (Doc.one_time_view d); auto.
Qed.

Lemma empty_digest_reports_pin_but_asks_none_witness :
  exists f,
    snd (run (view_secret token_b None (t0 + 1))
           (fst (run (create_secret token_b t0 t0 empty_digest_secret) []))) = Ok f /\
    SecretFetch.has_pin f = true /\
    SecretFetch.encrypted_data f = "Q0Q=".
Proof.
  destruct (empty_digest_reports_pin_but_asks_none
              (fst (run (create_secret token_b t0 t0 empty_digest_secret) []))
              token_b (doc_of token_b t0 t0 empty_digest_secret) (t0 + 1))
    as [_ H]; try reflexivity.
  exact (H None).
Defined.

(** ** What no request ever rewrites *)

Lemma stems_from_trans d1 d2 d3 :
  stems_from d1 d2 -> stems_from d2 d3 -> stems_from d1 d3.
Proof.
  unfold stems_from; intros [->| ->] [->| ->]; auto.
Qed.

Lemma handler_stems r c d' :
  In d' (fst (handler r c)) ->
  (exists d, In d c /\ stems_from d d') \/ In d' (created [r]).
Proof.
  assert (Hsame : In d' c -> (exists d, In d c /\ stems_from d d') \/ In d' (created [r]))
    by (intros H; left; exists d'; split; [exact H | left; reflexivity]).
  destruct r as [t n1 n2 s|i n|i p n|i|n]; unfold handler.
  - rewrite run_create_secret; cbn [fst created].
    intros H; apply in_app_or in H as [H|H]; [auto | right; exact H].
  - rewrite run_get_secret_info.
    destruct (Collection.find_one i c) as [d0|]; [|exact Hsame].
    destruct (expired n d0); cbn [fst];
      [intros H; apply Hsame, (delete_one_In _ _ _ H)|].
    destruct (consumed d0); cbn [fst];
      [intros H; apply Hsame, (delete_one_In _ _ _ H) | exact Hsame].
  - rewrite run_view_secret.
    destruct (Collection.find_one i c) as [d0|]; [|exact Hsame].
    destruct (expired n d0); cbn [fst];
      [intros H; apply Hsame, (delete_one_In _ _ _ H)|].
    destruct (consumed d0); cbn [fst];
      [intros H; apply Hsame, (delete_one_In _ _ _ H)|].
    destruct (pin_gate d0 p); cbn [fst]; [exact Hsame|].
    destruct (Doc.one_time_view d0); cbn [fst]; [|exact Hsame].
    intros H; apply update_one_In in H as [H|(d1 & H1 & _ & ->)]; [auto|].
    left; exists d1; split; [exact H1 | right; reflexivity].
  - rewrite run_delete_secret.
    destruct (snd (Collection.delete_one i c) =? 0); cbn [fst];
      intros H; apply Hsame, (delete_one_In _ _ _ H).
  - rewrite run_cleanup_expired_secrets; cbn [fst].
    intros H; apply filter_In in H as [H _]; auto.
Qed.

(** X10.  No request rewrites a stored record.  After any sequence of
    requests, every record in the collection is a record of the starting
    collection or the record a Create of the sequence inserted, with
    [encrypted_data], [iv], [pin_hash], [expires_at] and every other field
    as at the start or at creation; the one field that may differ is
    [viewed], and only from false to true. *)
Theorem records_are_never_rewritten :
  forall (rs : list request) (c : Collection.t) (d' : Doc.t),
    In d' (fst (serve rs c)) ->
    exists d, In d (c ++ created rs) /\ stems_from d d'.
Proof.
  intros rs; induction rs as [|r rs IH]; intros c d' Hin.
  - exists d'; cbn in *; rewrite app_nil_r; split; [exact Hin | left; reflexivity].
  - cbn [serve] in Hin.
    destruct (handler r c) as [c1 x] eqn:Hh.
    destruct (serve rs c1) as [c2 xs] eqn:Hs; cbn [fst] in Hin.
    assert (Hin' : In d' (fst (serve rs c1))) by (rewrite Hs; exact Hin).
    destruct (IH c1 d' Hin') as (d1 & H1 & Hst).
    assert (Hcr : forall d, In d (created rs) -> In d (created (r :: rs)))
      by (intros d H; destruct r; cbn [created]; auto; right; exact H).
    assert (Hhd : forall d, In d (created [r]) -> In d (created (r :: rs)))
      by (intros d H; destruct r; cbn [created] in *; try contradiction;
          destruct H as [<-|[]]; left; reflexivity).
    apply in_app_or in H1 as [H1|H1].
    + assert (H1' : In d1 (fst (handler r c))) by (rewrite Hh; exact H1).
      destruct (handler_stems r c d1 H1') as [(d & Hd & Hst0)|Hnew].
      * exists d; split; [apply in_or_app; left; exact Hd|].
        exact (stems_from_trans _ _ _ Hst0 Hst).
      * exists d1; split; [apply in_or_app; right; apply Hhd, Hnew | exact Hst].
    + exists d1; split; [apply in_or_app; right; apply Hcr, H1 | exact Hst].
Qed.

Lemma records_are_never_rewritten_witness :
  exists d,
    In d (mixed_store ++ created [View token_a None (t0 + 1);
                                  Create token_b t0 t0 empty_digest_secret]) /\
    stems_from d (Doc.set_viewed (doc_of token_a t0 t0 one_time_secret)).
Proof.
  apply (records_are_never_rewritten
           [View token_a None (t0 + 1); Create token_b t0 t0 empty_digest_secret]
           mixed_store).
  vm_compute; left; reflexivity.
Defined.

Lemma handler_flag_sound r c :
  Forall flag_sound c -> Forall flag_sound (fst (handler r c)).
Proof.
  rewrite !Forall_forall; intros Hc.
  assert (Hdel : forall i d, In d (fst (Collection.delete_one i c)) -> flag_sound d)
    by (intros i d H; apply Hc, (delete_one_In _ _ _ H)).
  destruct r as [t n1 n2 s|i n|i p n|i|n]; unfold handler.
  - rewrite run_create_secret; cbn [fst].
    intros d H; apply in_app_or in H as [H|[<-|[]]]; [exact (Hc d H)|].
    unfold flag_sound; cbn; discriminate.
  - rewrite run_get_secret_info.
    destruct (Collection.find_one i c) as [d0|]; [|exact Hc].
    destruct (expired n d0); cbn [fst]; [apply Hdel|].
    destruct (consumed d0); cbn [fst]; [apply Hdel | exact Hc].
  - rewrite run_view_secret.
    destruct (Collection.find_one i c) as [d0|] eqn:Hf; [|exact Hc].
    destruct (expired n d0); cbn [fst]; [apply Hdel|].
    destruct (consumed d0); cbn [fst]; [apply Hdel|].
    destruct (pin_gate d0 p); cbn [fst]; [exact Hc|].
    destruct (Doc.one_time_view d0) eqn:Hot; cbn [fst]; [|exact Hc].
    intros d H; apply update_one_In_first in H as [H|(d1 & H1 & _ & ->)];
      [exact (Hc d H)|].
    rewrite Hf in H1; injection H1 as <-.
    intros _; exact Hot.
  - rewrite run_delete_secret.
    destruct (snd (Collection.delete_one i c) =? 0); cbn [fst]; apply Hdel.
  - rewrite run_cleanup_expired_secrets; cbn [fst].
    intros d H; apply filter_In in H as [H _]; exact (Hc d H).
Qed.

(** X11.  Only one-time records are ever flagged.  If every stored record
    with [viewed] true is a one-time record, the same holds after any
    sequence of requests; in particular it holds of every collection built
    from the empty one. *)
Theorem viewed_only_on_one_time_records :
  forall (rs : list request) (c : Collection.t),
    Forall flag_sound c ->
    Forall flag_sound (fst (serve rs c)).
Proof.
  intros rs; induction rs as [|r rs IH]; intros c Hc; [exact Hc|].
  cbn [serve].
  pose proof (handler_flag_sound r c Hc) as H1.
  destruct (handler r c) as [c1 x]; cbn [fst] in H1.
  specialize (IH c1 H1).
  destruct (serve rs c1) as [c2 xs]; exact IH.
Qed.

Lemma viewed_only_on_one_time_records_witness :
  Forall flag_sound
    (fst (serve [Create token_a t0 t0 one_time_secret;
                 Create token_b t0 t0 plain_secret;
                 View token_a None (t0 + 1);
                 View token_b None (t0 + 2)] [])).
Proof.
  apply viewed_only_on_one_time_records; constructor.
Defined.

(** ** Requests for one id leave the other ids alone *)

Lemma snd_delete_one token c :
  snd (Collection.delete_one token c)
  = match filter (Collection.has_id token) c with [] => 0 | _ => 1 end.
Proof.
  induction c as [|d c IH]; simpl; [reflexivity|].
  destruct (Collection.has_id token d); simpl; [reflexivity|].
  destruct (Collection.delete_one token c); exact IH.
Qed.

Lemma handler_response_filter token r c1 c2 :
  filter (Collection.has_id token) c1 = filter (Collection.has_id token) c2 ->
  reads token r \/ r = Delete token ->
  snd (handler r c1) = snd (handler r c2).
Proof.
  intros Hfl Hr.
  assert (Hf : Collection.find_one token c1 = Collection.find_one token c2)
    by (rewrite !find_one_filter, Hfl; reflexivity).
  destruct Hr as [Hr| ->].
  - destruct r as [t n1 n2 s|i n|i p n|i|n]; simpl in Hr; try contradiction;
      subst i; unfold handler.
    + rewrite !run_get_secret_info, Hf.
      destruct (Collection.find_one token c2) as [d|]; [|reflexivity].
      destruct (expired n d); [reflexivity|].
      destruct (consumed d); reflexivity.
    + rewrite !run_view_secret, Hf.
      destruct (Collection.find_one token c2) as [d|]; [|reflexivity].
      destruct (expired n d); [reflexivity|].
      destruct (consumed d); [reflexivity|].
      destruct (pin_gate d p); reflexivity.
  - unfold handler; rewrite !run_delete_secret; cbn [snd].
    rewrite !snd_delete_one, Hfl; reflexivity.
Qed.

(** X12.  A Create, Inspect, View or Delete for one id leaves the records
    under every other id as they were, in the same order; so an Inspect,
    View or Delete of another id is answered the same whether it is served
    before or after that request. *)
Theorem requests_leave_other_ids_alone :
  forall (r r' : request) (c : Collection.t) (a b : string),
    addresses r = Some a ->
    a <> b ->
    filter (Collection.has_id b) (fst (handler r c))
      = filter (Collection.has_id b) c /\
    (reads b r' \/ r' = Delete b ->
     snd (handler r' (fst (handler r c))) = snd (handler r' c)).
Proof.
  intros r r' c a b Ha Hab.
  assert (Hfl : filter (Collection.has_id b) (fst (handler r c))
                = filter (Collection.has_id b) c).
  { destruct r as [t n1 n2 s|i n|i p n|i|n]; simpl in Ha; try discriminate;
      injection Ha as ->; unfold handler.
    - rewrite run_create_secret; cbn [fst].
      rewrite filter_app; cbn [filter].
      unfold Collection.has_id at 2; cbn [doc_of Doc.id].
      apply String.eqb_neq in Hab; rewrite Hab; apply app_nil_r.
    - rewrite run_get_secret_info.
      destruct (Collection.find_one a c) as [d0|]; [|reflexivity].
      destruct (expired n d0); cbn [fst]; [apply filter_delete_one_other, Hab|].
      destruct (consumed d0); cbn [fst];
        [apply filter_delete_one_other, Hab | reflexivity].
    - rewrite run_view_secret.
      destruct (Collection.find_one a c) as [d0|]; [|reflexivity].
      destruct (expired n d0); cbn [fst]; [apply filter_delete_one_other, Hab|].
      destruct (consumed d0); cbn [fst]; [apply filter_delete_one_other, Hab|].
      destruct (pin_gate d0 p); cbn [fst]; [reflexivity|].
      destruct (Doc.one_time_view d0); cbn [fst];
        [apply filter_update_one_other, Hab | reflexivity].
    - rewrite run_delete_secret; cbn [fst]; apply filter_delete_one_other, Hab. }
  split; [exact Hfl|].
  intros Hr; exact (handler_response_filter b r' _ _ Hfl Hr).
Qed.

Lemma requests_leave_other_ids_alone_witness :
  snd (handler (View token_b None (t0 + 1))
         (fst (handler (View token_a None (t0 + 1)) mixed_store)))
  = snd (handler (View token_b None (t0 + 1)) mixed_store).
Proof.
  destruct (requests_leave_other_ids_alone (View token_a None (t0 + 1))
              (View token_b None (t0 + 1)) mixed_store token_a token_b) as [_ H].
  - reflexivity.
  - vm_compute; discriminate.
  - apply H; left; reflexivity.
Defined.

(** ** Cleanup *)

Lemma expires_lt_expired now d : Collection.expires_lt now d = expired now d.
Proof. unfold Collection.expires_lt, expired; rewrite Z.gtb_ltb; reflexivity. Qed.

Lemma filter_none {A : Type} (p : A -> bool) (l : list A) :
  (forall x, In x l -> p x = false) -> filter p l = [] /\ filter (fun x => negb (p x)) l = l.
Proof.
  induction l as [|x l IH]; intros H; [split; reflexivity|]; simpl.
  rewrite (H x (or_introl eq_refl)); simpl.
  destruct IH as [H1 H2]; [intros y Hy; apply H; right; exact Hy|].
  rewrite H1, H2; split; reflexivity.
Qed.

(** X13.  Cleanup keeps exactly the records whose [expires_at] is not
    before the clock reading (a record expiring at the reading itself
    stays), in their order, and removes exactly those a read at that reading
    would call expired; it answers with the number removed.  A second
    Cleanup at the same or an earlier reading removes nothing and answers
    0. *)
Theorem cleanup_removes_exactly_the_expired :
  forall (c : Collection.t) (now : Z),
    let c' := fst (run (cleanup_expired_secrets now) c) in
    (forall d, In d c' <-> In d c /\ now <= Doc.expires_at d) /\
    c' = filter (fun d => negb (expired now d)) c /\
    snd (run (cleanup_expired_secrets now) c)
      = Ok (Z.of_nat (List.length (filter (expired now) c))) /\
    (List.length c' + List.length (filter (expired now) c) = List.length c)%nat /\
    (forall t, t <= now -> run (cleanup_expired_secrets t) c' = (c', Ok 0)).
Proof.
  intros c now; cbv zeta.
  rewrite run_cleanup_expired_secrets; unfold Collection.delete_many; cbn [fst snd].
  assert (Hneg : filter (fun d => negb (Collection.expires_lt now d)) c
                 = filter (fun d => negb (expired now d)) c)
    by (apply filter_ext; intros d; rewrite expires_lt_expired; reflexivity).
  assert (Hpos : filter (Collection.expires_lt now) c = filter (expired now) c)
    by (apply filter_ext; intros d; apply expires_lt_expired).
  rewrite Hneg, Hpos.
  split; [|split; [reflexivity|split; [reflexivity|split]]].
  - intros d; rewrite filter_In, negb_true_iff, expired_false; tauto.
  - rewrite Nat.add_comm; apply filter_length.
  - intros t Ht; rewrite run_cleanup_expired_secrets.
    unfold Collection.delete_many; cbn [fst snd].
    destruct (filter_none (Collection.expires_lt t)
                (filter (fun d => negb (expired now d)) c)) as [H1 H2].
    { intros d Hd; apply filter_In in Hd as [_ Hd].
      apply negb_true_iff, expired_false in Hd.
      unfold Collection.expires_lt; apply Z.ltb_ge; lia. }
    rewrite H1, H2; reflexivity.
Qed.

Lemma cleanup_removes_exactly_the_expired_witness :
  run (cleanup_expired_secrets (t0 + 300000000))
    (fst (run (cleanup_expired_secrets (t0 + 300000001)) mixed_store))
  = (one_time_store, Ok 0).
Proof.
  destruct (cleanup_removes_exactly_the_expired mixed_store (t0 + 300000001))
    as (_ & _ & _ & _ & H).
  apply (H (t0 + 300000000)); vm_compute; discriminate.
Defined.

Lemma find_one_survives token (p : Doc.t -> bool) c d :
  Collection.find_one token c = Some d ->
  p d = false ->
  Collection.find_one token (filter (fun x => negb (p x)) c) = Some d.
Proof.
  unfold Collection.find_one.
  induction c as [|x c IH]; simpl; [discriminate|].
  destruct (Collection.has_id token x) eqn:E.
  - intros [= ->] Hp; rewrite Hp; simpl; rewrite E; reflexivity.
  - intros H Hp; destruct (p x); simpl; [|rewrite E]; exact (IH H Hp).
Qed.

Lemma find_one_removed token (p : Doc.t -> bool) c d :
  (Collection.count_documents token c <= 1)%nat ->
  Collection.find_one token c = Some d ->
  p d = true ->
  Collection.find_one token (filter (fun x => negb (p x)) c) = None.
Proof.
  unfold Collection.find_one, Collection.count_documents.
  induction c as [|x c IH]; simpl; [discriminate|].
  destruct (Collection.has_id token x) eqn:E; simpl.
  - intros Hu [= ->] Hp; rewrite Hp; simpl.
    destruct (find (Collection.has_id token) (filter (fun x => negb (p x)) c))
      as [y|] eqn:Hy; [|reflexivity].
    apply find_some in Hy as [Hy1 Hy2]; apply filter_In in Hy1 as [Hy1 _].
    assert (H0 : Collection.count_documents token c = 0%nat)
      by (unfold Collection.count_documents; lia).
    rewrite (count_documents_0 token c y H0 Hy1) in Hy2; discriminate.
  - intros Hu H Hp; destruct (p x); simpl; [|rewrite E]; exact (IH Hu H Hp).
Qed.

Lemma find_one_filter_None token (p : Doc.t -> bool) c :
  Collection.find_one token c = None ->
  Collection.find_one token (filter p c) = None.
Proof.
  intros H.
  destruct (Collection.find_one token (filter p c)) as [y|] eqn:Hy; [|reflexivity].
  apply find_one_In in Hy as [Hy1 Hy2]; apply filter_In in Hy1 as [Hy1 _].
  rewrite (find_one_None token c y H Hy1) in Hy2; discriminate.
Qed.

(** X14.  Reads do not depend on Cleanup having run.  An Inspect or View
    that succeeds is answered the same when a Cleanup with an earlier or
    equal clock reading was served just before it.  When the token names at
    most one record, any Inspect or View is answered the same after such a
    Cleanup, except that 410 "Secret has expired" becomes 404 "Secret not
    found or has expired" once Cleanup has removed the record. *)
Theorem cleanup_does_not_change_reads :
  forall (c : Collection.t) (token : string) (t now : Z) (r : request),
    t <= now ->
    reads_at token now r ->
    let c' := fst (run (cleanup_expired_secrets t) c) in
    (granted (snd (handler r c)) -> snd (handler r c') = snd (handler r c)) /\
    ((Collection.count_documents token c <= 1)%nat ->
     snd (handler r c') = snd (handler r c) \/
     (snd (handler r c) = Denied has_expired /\
      snd (handler r c') = Denied not_found)).
Proof.
  intros c token t now r Ht Hr; cbv zeta.
  rewrite run_cleanup_expired_secrets; unfold Collection.delete_many; cbn [fst].
  assert (Hlive : forall d, Collection.find_one token c = Some d ->
                            expired now d = false ->
                            Collection.find_one token
                              (filter (fun d => negb (Collection.expires_lt t d)) c)
                            = Some d).
  { intros d Hf He; apply find_one_survives; [exact Hf|].
    apply expired_false in He; unfold Collection.expires_lt; apply Z.ltb_ge; lia. }
  destruct r as [tk n1 n2 s|i n|i p n|i|n]; simpl in Hr; try contradiction;
    destruct Hr as [-> ->]; unfold handler.
  - rewrite !run_get_secret_info.
    destruct (Collection.find_one token c) as [d|] eqn:Hf.
    + destruct (expired now d) eqn:He.
      * split; [intros []|].
        intros Hu; destruct (Collection.expires_lt t d) eqn:Hp.
        -- rewrite (find_one_removed token _ c d Hu Hf Hp); right; split; reflexivity.
        -- rewrite (find_one_survives token _ c d Hf Hp), He; left; reflexivity.
      * rewrite (Hlive d eq_refl He), He.
        destruct (consumed d); split; intros; auto.
    + rewrite (find_one_filter_None token _ c Hf); split; intros; auto.
  - rewrite !run_view_secret.
    destruct (Collection.find_one token c) as [d|] eqn:Hf.
    + destruct (expired now d) eqn:He.
      * split; [intros []|].
        intros Hu; destruct (Collection.expires_lt t d) eqn:Hp.
        -- rewrite (find_one_removed token _ c d Hu Hf Hp); right; split; reflexivity.
        -- rewrite (find_one_survives token _ c d Hf Hp), He; left; reflexivity.
      * rewrite (Hlive d eq_refl He), He.
        destruct (consumed d); [split; intros; auto|].
        destruct (pin_gate d p); split; intros; auto.
    + rewrite (find_one_filter_None token _ c Hf); split; intros; auto.
Qed.

Lemma cleanup_does_not_change_reads_witness :
  snd (handler (View token_a None (t0 + 300000002))
         (fst (run (cleanup_expired_secrets (t0 + 300000001)) mixed_store)))
  = snd (handler (View token_a None (t0 + 300000002)) mixed_store).
Proof.
  destruct (cleanup_does_not_change_reads mixed_store token_a (t0 + 300000001)
              (t0 + 300000002) (View token_a None (t0 + 300000002))) as [H _].
  - vm_compute; discriminate.
  - simpl; auto.
  - apply H; vm_compute; exact I.
Defined.

(** ** A read decides on what it fetched *)

Lemma view_secret_step token pin_data now c :
  step (view_secret token pin_data now) c =
  (c,
   match Collection.find_one token c with
   | None => Raise not_found
   | Some d =>
       if expired now d then
         Await_delete_one token (fun _ => Raise has_expired)
       else if consumed d then
         Await_delete_one token (fun _ => Raise already_viewed)
       else match pin_gate d pin_data with
            | Some e => Raise e
            | None =>
                if Doc.one_time_view d
                then Await_update_one token Doc.set_viewed
                       (fun _ => Return (fetch_of d))
                else Return (fetch_of d)
            end
   end).
Proof.
  unfold view_secret, expired, consumed, pin_gate, fetch_of; simpl.
  destruct (Collection.find_one token c) as [d|]; [|reflexivity].
  destruct (now >? Doc.expires_at d); simpl; [reflexivity|].
  destruct (Doc.one_time_view d && Doc.viewed d); simpl; [reflexivity|].
  destruct (truthy_opt (Doc.pin_hash d)); simpl.
  - destruct pin_data as [p|]; simpl; [|reflexivity].
    destruct (negb (truthy (PinVerify.pin_hash p))); simpl; [reflexivity|].
    destruct (Doc.pin_hash d) as [h|]; simpl; [|reflexivity].
    destruct (String.eqb (PinVerify.pin_hash p) h); simpl; [|reflexivity].
    destruct (Doc.one_time_view d); reflexivity.
  - destruct (Doc.one_time_view d); reflexivity.
Qed.

Lemma get_secret_info_step token now c :
  step (get_secret_info token now) c =
  (c,
   match Collection.find_one token c with
   | None => Raise not_found
   | Some d =>
       if expired now d then
         Await_delete_one token (fun _ => Raise has_expired)
       else if consumed d then
         Await_delete_one token (fun _ => Raise already_viewed)
       else Return (info_of d)
   end).
Proof.
  unfold get_secret_info, expired, consumed, info_of; simpl.
  destruct (Collection.find_one token c) as [d|]; [|reflexivity].
  destruct (now >? Doc.expires_at d); simpl; [reflexivity|].
  destruct (Doc.one_time_view d && Doc.viewed d); reflexivity.
Qed.

(** X15.  A read handler makes at most two store calls, and its answer is
    fixed by the first.  The first call ([find_one]) leaves the collection
    as it is; resumed once more on any collection whatever, so after any
    other requests have been served in between, the task is finished and
    hands back the answer it would have given had it run alone on the
    collection it fetched from.  Resumed without anything in between, it
    also leaves the collection the handler run alone leaves. *)
Theorem read_decides_on_what_it_fetched :
  forall (token : string) (pin_data : option PinVerify.t) (now : Z)
         (c c2 : Collection.t),
    (fst (step (view_secret token pin_data now) c) = c /\
     outcome (snd (step (snd (step (view_secret token pin_data now) c)) c2))
       = Some (snd (run (view_secret token pin_data now) c)) /\
     fst (step (snd (step (view_secret token pin_data now) c)) c)
       = fst (run (view_secret token pin_data now) c)) /\
    (fst (step (get_secret_info token now) c) = c /\
     outcome (snd (step (snd (step (get_secret_info token now) c)) c2))
       = Some (snd (run (get_secret_info token now) c)) /\
     fst (step (snd (step (get_secret_info token now) c)) c)
       = fst (run (get_secret_info token now) c)).
Proof.
  intros token pin_data now c c2.
  rewrite view_secret_step, get_secret_info_step.
  rewrite run_view_secret, run_get_secret_info; cbn [fst snd].
  destruct (Collection.find_one token c) as [d|]; [|repeat split].
  destruct (expired now d).
  { cbn [step]; destruct (Collection.delete_one token c2);
      destruct (Collection.delete_one token c); repeat split. }
  destruct (consumed d).
  { cbn [step]; destruct (Collection.delete_one token c2);
      destruct (Collection.delete_one token c); repeat split. }
  destruct (pin_gate d pin_data); [repeat split|].
  destruct (Doc.one_time_view d); repeat split.
Qed.

(** ** Tokens *)

Lemma hex_of_byte_unhex b :
  unhex_digit (hex_digit (N.shiftr (Byte.to_N b) 4)) = Some (N.shiftr (Byte.to_N b) 4) /\
  unhex_digit (hex_digit (N.land (Byte.to_N b) 15)) = Some (N.land (Byte.to_N b) 15) /\
  Byte.of_N (16 * N.shiftr (Byte.to_N b) 4 + N.land (Byte.to_N b) 15) = Some b.
Proof. destruct b; vm_compute; repeat split. Qed.

Lemma nibbles_bounded b :
  (N.shiftr (Byte.to_N b) 4 < 16)%N /\ (N.land (Byte.to_N b) 15 < 16)%N.
Proof. destruct b; vm_compute; split; reflexivity. Qed.

Lemma hex_digit_in n :
  (n < 16)%N -> In (hex_digit n) (list_ascii_of_string hexdigits).
Proof.
  intros Hn.
  assert (Hall : forallb (fun k => existsb (Ascii.eqb (hex_digit (N.of_nat k)))
                                     (list_ascii_of_string hexdigits))
                   (seq 0 16) = true) by reflexivity.
  rewrite forallb_forall in Hall.
  specialize (Hall (N.to_nat n)); rewrite N2Nat.id in Hall.
  assert (Hin : In (N.to_nat n) (seq 0 16)) by (apply in_seq; lia).
  apply Hall, existsb_exists in Hin as (a & Ha & Heq).
  apply Ascii.eqb_eq in Heq; rewrite Heq; exact Ha.
Qed.

Lemma hex_of_byte_digits b :
  Forall (fun a => In a (list_ascii_of_string hexdigits))
    (list_ascii_of_string (hex_of_byte b)).
Proof.
  destruct (nibbles_bounded b) as [Hh Hl].
  unfold hex_of_byte; cbn [list_ascii_of_string].
  constructor; [apply hex_digit_in, Hh|].
  constructor; [apply hex_digit_in, Hl | constructor].
Qed.

Lemma unhexlify_hexlify bs : unhexlify (hexlify bs) = Some bs.
Proof.
  induction bs as [|b bs IH]; [reflexivity|].
  destruct (hex_of_byte_unhex b) as (H1 & H2 & H3).
  cbn [hexlify hex_of_byte String.append unhexlify].
  rewrite H1, H2, IH, H3; reflexivity.
Qed.

Lemma length_hexlify bs : String.length (hexlify bs) = (2 * List.length bs)%nat.
Proof.
  induction bs as [|b bs IH]; [reflexivity|].
  cbn [hexlify hex_of_byte String.append String.length List.length].
  rewrite IH; lia.
Qed.

Lemma hexlify_digits bs :
  Forall (fun a => In a (list_ascii_of_string hexdigits))
    (list_ascii_of_string (hexlify bs)).
Proof.
  induction bs as [|b bs IH]; [constructor|].
  pose proof (hex_of_byte_digits b) as Hb.
  cbn [hexlify hex_of_byte String.append list_ascii_of_string] in *.
  inversion Hb as [|? ? Ha Hb']; subst.
  inversion Hb' as [|? ? Ha' _]; subst.
  constructor; [exact Ha|]; constructor; [exact Ha' | exact IH].
Qed.

(** X16.  When the random source hands out as many bytes as it is asked
    for, [generate_secure_token] returns 64 characters, each one of
    [0123456789abcdef], and the 32 random bytes can be read back from the
    token: two runs return the same token only if they drew the same 32
    bytes. *)
Theorem generate_secure_token_is_64_hex_chars :
  forall (token_bytes : nat -> list Byte.byte),
    (forall n, List.length (token_bytes n) = n) ->
    String.length (generate_secure_token token_bytes) = 64%nat /\
    Forall (fun a => In a (list_ascii_of_string hexdigits))
      (list_ascii_of_string (generate_secure_token token_bytes)) /\
    unhexlify (generate_secure_token token_bytes) = Some (token_bytes 32%nat) /\
    (forall token_bytes',
        generate_secure_token token_bytes' = generate_secure_token token_bytes ->
        token_bytes' 32%nat = token_bytes 32%nat).
Proof.
  intros token_bytes Hlen; unfold generate_secure_token, token_hex.
  split; [rewrite length_hexlify, Hlen; reflexivity|].
  split; [apply hexlify_digits|].
  split; [apply unhexlify_hexlify|].
  intros token_bytes' H.
  pose proof (unhexlify_hexlify (token_bytes' 32%nat)) as H1.
  rewrite H, unhexlify_hexlify in H1; congruence.
Qed.

Lemma generate_secure_token_is_64_hex_chars_witness :
  String.length (generate_secure_token (constant_source Byte.xa7)) = 64%nat /\
  unhexlify (generate_secure_token (constant_source Byte.xa7))
    = Some (repeat Byte.xa7 32).
Proof.
  destruct (generate_secure_token_is_64_hex_chars (constant_source Byte.xa7))
    as (H1 & _ & H3 & _).
  - intros n; apply repeat_length.
  - split; [exact H1 | exact H3].
Defined.

(** ** Ids stay keys while draws are fresh *)

Lemma count_delete_one_le token i c :
  (Collection.count_documents token (fst (Collection.delete_one i c))
   <= Collection.count_documents token c)%nat.
Proof.
  unfold Collection.count_documents.
  induction c as [|d c IH]; simpl; [lia|].
  destruct (Collection.has_id i d); simpl.
  - destruct (Collection.has_id token d); simpl; lia.
  - destruct (Collection.delete_one i c) as [r n]; simpl in *.
    destruct (Collection.has_id token d); simpl; lia.
Qed.

Lemma count_update_one token i c :
  Collection.count_documents token (Collection.update_one i Doc.set_viewed c)
  = Collection.count_documents token c.
Proof.
  unfold Collection.count_documents.
  induction c as [|d c IH]; simpl; [reflexivity|].
  destruct (Collection.has_id i d); simpl.
  - rewrite has_id_set_viewed.
    destruct (Collection.has_id token d); reflexivity.
  - destruct (Collection.has_id token d); simpl; rewrite IH; reflexivity.
Qed.

Lemma count_filter_le token (p : Doc.t -> bool) c :
  (Collection.count_documents token (filter p c)
   <= Collection.count_documents token c)%nat.
Proof.
  unfold Collection.count_documents.
  induction c as [|d c IH]; simpl; [lia|].
  destruct (p d); simpl; destruct (Collection.has_id token d); simpl; lia.
Qed.

Lemma handler_keyed r c :
  keyed c ->
  match r with
  | Create token _ _ _ => Collection.count_documents token c = 0%nat
  | _ => True
  end ->
  keyed (fst (handler r c)).
Proof.
  intros Hk Hr token; specialize (Hk token).
  pose proof (fun i => count_delete_one_le token i c) as Hdel.
  destruct r as [t n1 n2 s|i n|i p n|i|n]; unfold handler.
  - rewrite run_create_secret; cbn [fst].
    rewrite count_documents_app.
    unfold Collection.count_documents at 2, Collection.has_id; cbn [filter doc_of Doc.id].
    destruct (String.eqb t token) eqn:E; cbn [List.length]; [|lia].
    apply String.eqb_eq in E; subst t; cbn in Hr; rewrite Hr; lia.
  - rewrite run_get_secret_info.
    destruct (Collection.find_one i c) as [d0|]; [|exact Hk].
    destruct (expired n d0); cbn [fst]; [specialize (Hdel i); lia|].
    destruct (consumed d0); cbn [fst]; [specialize (Hdel i); lia | exact Hk].
  - rewrite run_view_secret.
    destruct (Collection.find_one i c) as [d0|]; [|exact Hk].
    destruct (expired n d0); cbn [fst]; [specialize (Hdel i); lia|].
    destruct (consumed d0); cbn [fst]; [specialize (Hdel i); lia|].
    destruct (pin_gate d0 p); cbn [fst]; [exact Hk|].
    destruct (Doc.one_time_view d0); cbn [fst]; [|exact Hk].
    rewrite count_update_one; exact Hk.
  - rewrite run_delete_secret; cbn [fst]; specialize (Hdel i); lia.
  - rewrite run_cleanup_expired_secrets; unfold Collection.delete_many; cbn [fst].
    pose proof (count_filter_le token
                  (fun d => negb (Collection.expires_lt n d)) c); lia.
Qed.

(** X17.  No request but Create can put a second record under an id.  If
    every id names at most one record, and every Create of a sequence of
    requests draws a token that names no record when it is served, then
    every id still names at most one record after the sequence. *)
Theorem ids_stay_keys_while_draws_are_fresh :
  forall (rs : list request) (c : Collection.t),
    keyed c ->
    draws_fresh rs c ->
    keyed (fst (serve rs c)).
Proof.
  intros rs; induction rs as [|r rs IH]; intros c Hk Hfr; [exact Hk|].
  destruct Hfr as [Hr Hfr]; cbn [serve].
  pose proof (handler_keyed r c Hk Hr) as H1.
  destruct (handler r c) as [c1 x]; cbn [fst] in *.
  specialize (IH c1 H1 Hfr).
  destruct (serve rs c1) as [c2 xs]; exact IH.
Qed.

Lemma ids_stay_keys_while_draws_are_fresh_witness :
  keyed (fst (serve [Create token_a t0 t0 one_time_secret;
                     View token_a None (t0 + 1);
                     Create token_b t0 t0 plain_secret;
                     Inspect token_a (t0 + 2);
                     Create token_a (t0 + 3) (t0 + 3) pin_secret] [])).
Proof.
  apply ids_stay_keys_while_draws_are_fresh.
  - intros token; cbn; lia.
  - cbn [draws_fresh]; repeat split; reflexivity.
Defined.
